(** * ipc: named-pipe transport and binary codec

    A shallow embedding of the [ipc] library (serialization.h, pipes.h,
    win_util.h, error.h) and the properties of its specification.

    Target platform: 64-bit Windows, little endian.  [size_t] is a 64-bit
    unsigned integer, [DWORD] a 32-bit unsigned integer, [uint8_t] an 8-bit
    one; all are carried by [Z] with the wrap-around written out. *)

From Stdlib Require Import String Ascii DecimalString DecimalZ ZArith List Lia Bool.
Import ListNotations.
Open Scope Z_scope.

(** ** Machine integers *)

Module Platform.

Definition uint8_t := Z.
Definition size_t := Z.
Definition DWORD := Z.

Definition SIZE_MOD : Z := 2 ^ 64.
Definition DWORD_MOD : Z := 2 ^ 32.

(** Conversion of a mathematical integer to [size_t] and [DWORD]; the latter
    is [static_cast<DWORD>] and the implicit narrowing at Win32 calls. *)
Definition to_size_t (z : Z) : size_t := z mod SIZE_MOD.
Definition to_DWORD (z : Z) : DWORD := z mod DWORD_MOD.

Definition in_size_t (z : Z) : Prop := 0 <= z < SIZE_MOD.

(** [size_t] arithmetic. *)
Definition size_add (a b : size_t) : size_t := to_size_t (a + b).
Definition size_sub (a b : size_t) : size_t := to_size_t (a - b).
Definition size_mul (a b : size_t) : size_t := to_size_t (a * b).

(** [std::vector::size()] and [std::basic_string::length()]. *)
Definition size {A} (v : list A) : size_t := Z.of_nat (length v).

(** The [n] elements at a pointer into [v]; [n] is never negative here. *)
Definition take_n {A} (n : Z) (v : list A) : list A := firstn (Z.to_nat n) v.
Definition drop_n {A} (n : Z) (v : list A) : list A := skipn (Z.to_nat n) v.

(** [ceil(a / b)] for positive [b]. *)
Definition ceil_div (a b : Z) : Z := (a + b - 1) / b.

End Platform.
Import Platform.

(** ** error.h *)

(** [ipc::Error]: a [std::runtime_error] built from a text alone or from a
    text and an OS error code. *)
Inductive Error : Type :=
| ErrorText (text : string)
| ErrorCode (text : string) (err : Z).

(** ** serialization.h *)

Module Codec.

(** What a codec call can end in: a value, a thrown [ipc::Error], or
    behaviour the language leaves undefined (reading through the null
    pointer or past the end of the vector's storage). *)
Inductive Undef : Type := NullDeref | OutOfBounds.

Inductive Result (A : Type) : Type :=
| Ok (a : A)
| Throw (e : Error)
| Undefined (u : Undef).
Arguments Ok {A} a.
Arguments Throw {A} e.
Arguments Undefined {A} u.

(** A [const uint8_t*] handed out by [Take]: null, or [buffer_.data() + off]. *)
Inductive Ptr : Type :=
| nullptr
| data_plus (off : Z).

(** *** VectorSerializationBufferAdapter *)

(** [Put]: [std::copy(data, data + dataSize, std::back_inserter(buffer_))]. *)
Definition Put (buffer_ : list uint8_t) (data : list uint8_t) (dataSize : size_t)
  : list uint8_t :=
  buffer_ ++ take_n dataSize data.

(** *** VectorDeserializationBufferAdapter *)

Record VectorDeserializationBufferAdapter : Type := mkSource {
  buffer_ : list uint8_t;
  pos_ : size_t
}.
Definition Source : Type := VectorDeserializationBufferAdapter.

Definition data_not_available : Error :=
  ErrorText "Data of requested size not available.".

(** [Take]. The adapter is mutated in place, so the state after the call is
    returned next to the outcome, also when the call throws. *)
Definition Take (s : Source) (dataSize : size_t) : Result Ptr * Source :=
  if dataSize =? 0 then (Ok nullptr, s)
  else if dataSize >? size_sub (size (buffer_ s)) (pos_ s)
       then (Throw data_not_available, s)
       else (Ok (data_plus (pos_ s)),
             mkSource (buffer_ s) (size_add (pos_ s) dataSize)).

(** The code's own count of the bytes left: [buffer_.size() - pos_]. *)
Definition remaining (s : Source) : size_t :=
  size_sub (size (buffer_ s)) (pos_ s).

(** *** Object representations *)

(** A primitive type of the codec: an integer type of [width] bytes, signed
    or not.  [size_t] is [uint 8]; [char] is [sint 1]; [wchar_t] is
    [uint 2]. *)
Record IntType : Type := mkInt { width : nat; is_signed : bool }.

Definition uint (w : nat) : IntType := mkInt w false.
Definition sint (w : nat) : IntType := mkInt w true.
Definition size_t_type : IntType := uint 8.

Definition sizeof (T : IntType) : size_t := Z.of_nat (width T).
Definition bits (T : IntType) : Z := 8 * Z.of_nat (width T).

Definition in_range (T : IntType) (v : Z) : Prop :=
  if is_signed T then - 2 ^ (bits T - 1) <= v < 2 ^ (bits T - 1)
  else 0 <= v < 2 ^ bits T.

(** Little-endian bytes of an integer, and back. *)
Fixpoint le_bytes (w : nat) (x : Z) : list uint8_t :=
  match w with
  | O => []
  | S w' => (x mod 256) :: le_bytes w' (x / 256)
  end.

Fixpoint le_value (bs : list uint8_t) : Z :=
  match bs with
  | [] => 0
  | b :: bs' => b + 256 * le_value bs'
  end.

(** The bytes at [&val], and the value of the [T] object stored in bytes. *)
Definition object_repr (T : IntType) (v : Z) : list uint8_t :=
  le_bytes (width T) v.

Definition object_value (T : IntType) (bs : list uint8_t) : Z :=
  let u := le_value bs in
  if is_signed T && (2 ^ (bits T - 1) <=? u) then u - 2 ^ bits T else u.

(** *** serialize *)

(** [serialize<T>(val, target)] for every type but [std::basic_string]. *)
Definition serialize (T : IntType) (val : Z) (target : list uint8_t)
  : list uint8_t :=
  Put target (object_repr T val) (sizeof T).

(** The bytes at [str.data()]. *)
Definition string_data (TChar : IntType) (str : list Z) : list uint8_t :=
  flat_map (object_repr TChar) str.

(** [serialize(const std::basic_string<TChar>&, target)]. *)
Definition serialize_string (TChar : IntType) (str : list Z)
  (target : list uint8_t) : list uint8_t :=
  let len := size str in
  let target := serialize size_t_type (size_add len 1) target in
  let target := Put target (string_data TChar str) (size_mul len (sizeof TChar)) in
  serialize TChar 0 target.

(** *** deserialize *)

(** [*reinterpret_cast<const T*>(p)]: the object of type [T] at [p]. *)
Definition load (T : IntType) (mem : list uint8_t) (p : Ptr) : Result Z :=
  match p with
  | nullptr => Undefined NullDeref
  | data_plus off =>
      if (0 <=? off) && (off + sizeof T <=? size mem)
      then Ok (object_value T (take_n (sizeof T) (drop_n off mem)))
      else Undefined OutOfBounds
  end.

(** [deserialize<T>(source)] for every type but [std::basic_string]. *)
Definition deserialize (T : IntType) (source : Source) : Result Z * Source :=
  match Take source (sizeof T) with
  | (Ok p, source') => (load T (buffer_ source') p, source')
  | (Throw e, source') => (Throw e, source')
  | (Undefined u, source') => (Undefined u, source')
  end.

(** The same two templates for a [T] that is not an integer type (a
    floating-point type, [bool], an enumeration, a pointer): [serialize]
    puts the [sizeof(val)] bytes at [&val], here [repr], and [deserialize]
    copies the object of [n = sizeof(T)] bytes at the pointer [Take] hands
    out; the object is given by its bytes. *)
Definition serialize_object (repr : list uint8_t) (target : list uint8_t)
  : list uint8_t :=
  Put target repr (size repr).

Definition load_object (n : size_t) (mem : list uint8_t) (p : Ptr)
  : Result (list uint8_t) :=
  match p with
  | nullptr => Undefined NullDeref
  | data_plus off =>
      if (0 <=? off) && (off + n <=? size mem)
      then Ok (take_n n (drop_n off mem))
      else Undefined OutOfBounds
  end.

Definition deserialize_object (n : size_t) (source : Source)
  : Result (list uint8_t) * Source :=
  match Take source n with
  | (Ok p, source') => (load_object n (buffer_ source') p, source')
  | (Throw e, source') => (Throw e, source')
  | (Undefined u, source') => (Undefined u, source')
  end.

(** The [std::basic_string] constructor from a pointer to [Char_t]: the
    character units from the pointer up to, and without, the first zero unit.  [fuel] bounds the
    number of units read; one more than the bytes in [mem] always suffices
    since every unit read consumes at least one byte. *)
Fixpoint c_str_units (TChar : IntType) (fuel : nat) (mem : list uint8_t)
  : Result (list Z) :=
  match fuel with
  | O => Undefined OutOfBounds
  | S fuel' =>
      if size mem <? sizeof TChar then Undefined OutOfBounds
      else
        let u := object_value TChar (take_n (sizeof TChar) mem) in
        if u =? 0 then Ok []
        else match c_str_units TChar fuel' (drop_n (sizeof TChar) mem) with
             | Ok rest => Ok (u :: rest)
             | r => r
             end
  end.

Definition string_from_pointer (TChar : IntType) (mem : list uint8_t) (p : Ptr)
  : Result (list Z) :=
  match p with
  | nullptr => Undefined NullDeref
  | data_plus off =>
      if (0 <=? off) && (off <=? size mem)
      then c_str_units TChar (S (length mem)) (drop_n off mem)
      else Undefined OutOfBounds
  end.

(** [deserialize<std::basic_string<Char_t>>(source)]. *)
Definition deserialize_string (TChar : IntType) (source : Source)
  : Result (list Z) * Source :=
  match deserialize size_t_type source with
  | (Ok lenPlusTerminator, source1) =>
      match Take source1 lenPlusTerminator with
      | (Ok p, source2) => (string_from_pointer TChar (buffer_ source2) p, source2)
      | (Throw e, source2) => (Throw e, source2)
      | (Undefined u, source2) => (Undefined u, source2)
      end
  | (Throw e, source1) => (Throw e, source1)
  | (Undefined u, source1) => (Undefined u, source1)
  end.

(** A source whose position lies inside its vector, the vector being one the
    platform can hold. *)
Definition position_ok (s : Source) : Prop :=
  0 <= pos_ s <= size (buffer_ s) /\ size (buffer_ s) < SIZE_MOD.

(** A source over [buffer] standing at position [pos]. *)
Definition source_at (buffer : list uint8_t) (pos : size_t) : Source :=
  mkSource buffer pos.

End Codec.

(** ** win.h and win_util.h *)

Module Win32.

Definition HANDLE : Type := Z.
Definition NULL : HANDLE := 0.
Definition INVALID_HANDLE_VALUE : HANDLE := -1.

(** System error codes, with the values of the Windows SDK (winerror.h). *)
Definition ERROR_SUCCESS : DWORD := 0.
Definition ERROR_FILE_NOT_FOUND : DWORD := 2.
Definition ERROR_SEM_TIMEOUT : DWORD := 121.
Definition ERROR_PIPE_BUSY : DWORD := 231.
Definition ERROR_MORE_DATA : DWORD := 234.
Definition ERROR_PIPE_CONNECTED : DWORD := 535.
Definition ERROR_IO_INCOMPLETE : DWORD := 996.
Definition ERROR_IO_PENDING : DWORD := 997.

(** [Handle::operator bool]. *)
Definition Handle_bool (h : HANDLE) : bool :=
  negb (h =? NULL) && negb (h =? INVALID_HANDLE_VALUE).

(** Completion status the system keeps in an [OVERLAPPED] record. *)
Inductive IoStatus : Type :=
| StatusSuccess
| StatusPending
| StatusBufferOverflow
| StatusError (e : DWORD).

(** [GetOverlappedResult] with [bWait = FALSE]: the result, and the thread's
    last error after the call.  A successful call leaves the last error as
    it was, which is why [OnReadCompleted] clears it after an overflow. *)
Definition GetOverlappedResult (st : IoStatus) (last_error : DWORD)
  : bool * DWORD :=
  match st with
  | StatusSuccess => (true, last_error)
  | StatusPending => (false, ERROR_IO_INCOMPLETE)
  | StatusBufferOverflow => (false, ERROR_MORE_DATA)
  | StatusError e => (false, e)
  end.

End Win32.
Import Win32.

(** ** pipes.h: the server side *)

Module Server.

(** [CrPipe<N, M>::PipeInfo]: the [OVERLAPPED] record handed to the system
    and the back-reference to the pipe ([self_set] tells [self == this] from
    [self == nullptr]). *)
Record PipeInfo : Type := mkInfo {
  state_status : IoStatus;
  state_hEvent : HANDLE;
  self_set : bool
}.

(** [PipeInfo::Clear] and [PipeInfo::Set]. *)
Definition PipeInfo_Clear : PipeInfo := mkInfo StatusSuccess NULL false.
Definition PipeInfo_Set (connectedEvent : HANDLE) : PipeInfo :=
  mkInfo StatusSuccess connectedEvent true.

(** [CrPipe<N, M>]. *)
Record CrPipe : Type := mkPipe {
  info_ : PipeInfo;
  pipeHandle_ : HANDLE;
  readBuffer_ : list uint8_t;
  writeBuffer_ : list uint8_t;
  isConnectionPending_ : bool;
  isConnected_ : bool
}.

(** An asynchronous operation the system has accepted and not completed. *)
Inductive AsyncOp : Type :=
| ReadOp (nNumberOfBytesToRead : DWORD)
| WriteOp (bytes : list uint8_t).

(** A notification of the observer: the hook and its [data], [dataSize]. *)
Inductive Notification : Type :=
| PipeConnected
| DataReceived (data : list uint8_t) (dataSize : size_t)
| PartialDataReceived (data : list uint8_t) (dataSize : size_t)
| DataSent.

(** What a pipe does that the outside can see. *)
Inductive Event : Type :=
| CallCreateNamedPipeA (name : string) (nOutBufferSize nInBufferSize : DWORD)
| CallConnectNamedPipe (h : HANDLE)
| CallSetEvent (h : HANDLE)
| CallReadFileEx (h : HANDLE) (nNumberOfBytesToRead : DWORD)
| CallWriteFileEx (h : HANDLE) (bytes : list uint8_t)
| CallGetOverlappedResult (h : HANDLE)
| CallDisconnectNamedPipe (h : HANDLE)
| CallCloseHandle (h : HANDLE)
| Notify (n : Notification).

(** The pipe and its surroundings.  [self] is [None] once the pipe has
    deleted itself; [in_flight] are the operations of this pipe the system
    is working on; [peak] is the greatest number of operations that were
    ever in flight or asked for together; [trace] lists the events so far. *)
Record World : Type := mkWorld {
  self : option CrPipe;
  last_error : DWORD;
  in_flight : list AsyncOp;
  peak : nat;
  trace : list Event
}.

Definition set_self (p : option CrPipe) (w : World) : World :=
  mkWorld p (last_error w) (in_flight w) (peak w) (trace w).
Definition SetLastError (e : DWORD) (w : World) : World :=
  mkWorld (self w) e (in_flight w) (peak w) (trace w).
Definition log (e : Event) (w : World) : World :=
  mkWorld (self w) (last_error w) (in_flight w) (peak w) (trace w ++ [e]).
(** Asking the system for an asynchronous operation: the call is logged,
    and [peak] takes note of how many operations there would be in flight
    with this one. *)
Definition request (e : Event) (w : World) : World :=
  mkWorld (self w) (last_error w) (in_flight w)
          (Nat.max (peak w) (S (length (in_flight w)))) (trace w ++ [e]).
(** The system accepts the operation. *)
Definition accept (op : AsyncOp) (w : World) : World :=
  mkWorld (self w) (last_error w) (in_flight w ++ [op]) (peak w) (trace w).

(** How a call into the pipe ends. *)
Inductive Outcome : Type :=
| Returned
| Threw (e : Error)
| AssertionFailed (expr : string)
| UseAfterDelete.

Definition Action : Type := World -> Outcome * World.

(** The answers of the system to the calls that can fail: [None] for
    success, [Some e] for failure with last error [e]. *)
Record Os : Type := mkOs {
  CreateNamedPipeA_reply : string -> World -> HANDLE * DWORD;
  ConnectNamedPipe_error : World -> DWORD;
  SetEvent_fails : World -> option DWORD;
  ReadFileEx_fails : World -> option DWORD;
  WriteFileEx_fails : World -> option DWORD;
  DisconnectNamedPipe_fails : World -> option DWORD
}.

(** [CrPipeCallbacks<N, M>]: the four virtual hooks.  The [pipe] argument is
    the pipe of the world; [data] is the read buffer the pointer refers to. *)
Record CrPipeCallbacks : Type := mkCallbacks {
  OnPipeConnected : Action;
  OnDataReceived : list uint8_t -> size_t -> Action;
  OnPartialDataReceived : list uint8_t -> size_t -> Action;
  OnDataSent : Action
}.

Section CrPipe.

(** Template parameters, and whether [assert] is compiled out. *)
Variables N M : size_t.
Variable NDEBUG : bool.
Variable os : Os.

(** Member access through [this]. *)
Definition with_this (f : CrPipe -> Action) : Action :=
  fun w => match self w with
           | Some p => f p w
           | None => (UseAfterDelete, w)
           end.

(** [assert(cond)]. *)
Definition assert (cond : bool) (expr : string) (k : Action) : Action :=
  fun w => if NDEBUG || cond then k w else (AssertionFailed expr, w).

(** [CrPipe(callbacks)]; the arrays start with whatever the heap holds. *)
Definition new_CrPipe (readBuffer writeBuffer : list uint8_t) : CrPipe :=
  mkPipe PipeInfo_Clear NULL readBuffer writeBuffer false false.

(** [delete this]: the destructor of [pipeHandle_] closes a valid handle. *)
Definition delete_this : Action :=
  with_this (fun p w =>
    let w := if Handle_bool (pipeHandle_ p)
             then log (CallCloseHandle (pipeHandle_ p)) w else w in
    (Returned, set_self None w)).

(** [CrPipe::Disconnect]. *)
Definition Disconnect : Action :=
  with_this (fun p w =>
    let w := log (CallDisconnectNamedPipe (pipeHandle_ p)) w in
    match DisconnectNamedPipe_fails os w with
    | Some e =>
        (Threw (ErrorCode "Win API DisconnectNamedPipe failed." e),
         SetLastError e w)
    | None => delete_this w
    end).

(** [CrPipe::Connect]. *)
Definition Connect (name : string) (connectedEvent : HANDLE) : Action :=
  with_this (fun p w =>
    let p := mkPipe (PipeInfo_Set connectedEvent) (pipeHandle_ p)
               (readBuffer_ p) (writeBuffer_ p)
               (isConnectionPending_ p) (isConnected_ p) in
    let w := log (CallCreateNamedPipeA name (to_DWORD N) (to_DWORD N))
               (set_self (Some p) w) in
    let '(h, e) := CreateNamedPipeA_reply os name w in
    let p := mkPipe (info_ p) h (readBuffer_ p) (writeBuffer_ p)
               (isConnectionPending_ p) (isConnected_ p) in
    let w := set_self (Some p) w in
    if h =? INVALID_HANDLE_VALUE
    then (Threw (ErrorCode "Win API CreateNamedPipe failed." e), SetLastError e w)
    else
      let w := log (CallConnectNamedPipe h) w in
      let e := ConnectNamedPipe_error os w in
      let w := SetLastError e w in
      if e =? ERROR_IO_PENDING then
        (Returned,
         set_self (Some (mkPipe (mkInfo StatusPending connectedEvent true) h
                           (readBuffer_ p) (writeBuffer_ p) true
                           (isConnected_ p))) w)
      else if e =? ERROR_PIPE_CONNECTED then
        let w := log (CallSetEvent connectedEvent) w in
        match SetEvent_fails os w with
        | Some e' => (Threw (ErrorCode "Win API SetEvent failed." e'),
                      SetLastError e' w)
        | None => (Returned, w)
        end
      else (Threw (ErrorCode "Win API ConnectNamedPipe failed." e), w)).

(** [CrPipe::ListenForData]. *)
Definition ListenForData : Action :=
  with_this (fun p w =>
    if negb (isConnected_ p) then (Returned, w)
    else
      let w := request (CallReadFileEx (pipeHandle_ p) (to_DWORD N)) w in
      match ReadFileEx_fails os w with
      | None => (Returned, accept (ReadOp (to_DWORD N)) w)
      | Some e => Disconnect (SetLastError e w)
      end).

(** [CrPipe::SendData]. *)
Definition SendData (data : list uint8_t) (dataSize : size_t) : Action :=
  with_this (fun p w =>
    if negb (isConnected_ p) then (Returned, w)
    else
      assert (dataSize <=? M) "dataSize <= M" (fun w =>
        let numBytesSending := Z.min dataSize M in
        let writeBuffer := take_n numBytesSending data
                           ++ drop_n numBytesSending (writeBuffer_ p) in
        let p := mkPipe (info_ p) (pipeHandle_ p) (readBuffer_ p) writeBuffer
                   (isConnectionPending_ p) (isConnected_ p) in
        let bytes := take_n (to_DWORD numBytesSending) writeBuffer in
        let w := request (CallWriteFileEx (pipeHandle_ p) bytes)
                   (set_self (Some p) w) in
        match WriteFileEx_fails os w with
        | None => (Returned, accept (WriteOp bytes) w)
        | Some e => Disconnect (SetLastError e w)
        end) w).

(** Default implementation of [CrPipeCallbacks]. *)
Definition default_callbacks : CrPipeCallbacks :=
  mkCallbacks ListenForData
              (fun _ _ w => (Returned, w))
              (fun _ _ => ListenForData)
              ListenForData.

Variable callbacks_ : CrPipeCallbacks.

(** Calling a hook of the observer. *)
Definition notify (n : Notification) : Action :=
  fun w =>
    let w := log (Notify n) w in
    match n with
    | PipeConnected => OnPipeConnected callbacks_ w
    | DataReceived data dataSize => OnDataReceived callbacks_ data dataSize w
    | PartialDataReceived data dataSize =>
        OnPartialDataReceived callbacks_ data dataSize w
    | DataSent => OnDataSent callbacks_ w
    end.

(** [CrPipe::OnConnected]. *)
Definition OnConnected : Action :=
  with_this (fun p w =>
    let finish (p : CrPipe) : Action := fun w =>
      let p := mkPipe (info_ p) (pipeHandle_ p) (readBuffer_ p)
                 (writeBuffer_ p) (isConnectionPending_ p) true in
      notify PipeConnected (set_self (Some p) w) in
    if isConnectionPending_ p then
      let w := log (CallGetOverlappedResult (pipeHandle_ p)) w in
      let '(res, e) := GetOverlappedResult (state_status (info_ p))
                         (last_error w) in
      assert res "res" (fun w =>
        finish (mkPipe (info_ p) (pipeHandle_ p) (readBuffer_ p)
                  (writeBuffer_ p) false (isConnected_ p)) w)
        (SetLastError e w)
    else finish p w).

(** [CrPipe::OnReadCompleted]. *)
Definition OnReadCompleted (err numBytesRead : DWORD) : Action :=
  with_this (fun p w =>
    if negb (err =? ERROR_SUCCESS) then Disconnect w
    else
      let w := log (CallGetOverlappedResult (pipeHandle_ p)) w in
      let '(_, e) := GetOverlappedResult (state_status (info_ p))
                       (last_error w) in
      let w := SetLastError e w in
      let haveOverflow := last_error w =? ERROR_MORE_DATA in
      if haveOverflow
      then notify (PartialDataReceived (readBuffer_ p) numBytesRead)
             (SetLastError ERROR_SUCCESS w)
      else notify (DataReceived (readBuffer_ p) numBytesRead) w).

(** [CrPipe::OnWriteCompleted]. *)
Definition OnWriteCompleted (err numBytesWritten : DWORD) : Action :=
  with_this (fun p w =>
    if negb (err =? ERROR_SUCCESS) then Disconnect w
    else notify DataSent w).

(** The static completion routines [ReadCompleted] and [WriteCompleted]. *)
Definition ReadCompleted (err numBytesRead : DWORD) : Action :=
  with_this (fun p w =>
    assert (self_set (info_ p)) "self" (fun w =>
      if self_set (info_ p) then OnReadCompleted err numBytesRead w
      else (Returned, w)) w).

Definition WriteCompleted (err numBytesWritten : DWORD) : Action :=
  with_this (fun p w =>
    assert (self_set (info_ p)) "self" (fun w =>
      if self_set (info_ p) then OnWriteCompleted err numBytesWritten w
      else (Returned, w)) w).

End CrPipe.

(** *** The system's side of a connection *)

(** What an application's override of [OnDataReceived] does with the pipe:
    nothing, one [SendData], or one [ListenForData]. *)
Inductive Reply : Type :=
| NoReply
| ReplySend (data : list uint8_t)
| ReplyListen.

(** What can happen to a connection from outside: the dispatch loop of
    [CrPipeServer::Run] reports a client ([st] is the status the system left
    in the [OVERLAPPED] record of the connect operation), or the system
    completes the oldest read or write in flight. *)
Inductive Step : Type :=
| ClientConnected (st : IoStatus)
| ReadCompletes (err : DWORD) (data : list uint8_t) (more : bool)
| WriteCompletes (err : DWORD) (numBytesWritten : DWORD).

Fixpoint take_read (ops : list AsyncOp) : option (DWORD * list AsyncOp) :=
  match ops with
  | [] => None
  | ReadOp n :: rest => Some (n, rest)
  | op :: rest =>
      match take_read rest with
      | Some (n, rest') => Some (n, op :: rest')
      | None => None
      end
  end.

Fixpoint take_write (ops : list AsyncOp) : option (list uint8_t * list AsyncOp) :=
  match ops with
  | [] => None
  | WriteOp bytes :: rest => Some (bytes, rest)
  | op :: rest =>
      match take_write rest with
      | Some (bytes, rest') => Some (bytes, op :: rest')
      | None => None
      end
  end.

(** The system retires an operation: it leaves [in_flight], and the status
    (and for a read the bytes) are stored in the pipe's memory if the pipe
    still exists. *)
Definition retire (rest : list AsyncOp) (st : IoStatus) (data : list uint8_t)
  (w : World) : World :=
  let stored :=
    match self w with
    | Some p =>
        Some (mkPipe (mkInfo st (state_hEvent (info_ p)) (self_set (info_ p)))
                (pipeHandle_ p)
                (data ++ drop_n (size data) (readBuffer_ p))
                (writeBuffer_ p) (isConnectionPending_ p) (isConnected_ p))
    | None => None
    end in
  mkWorld stored (last_error w) rest (peak w) (trace w).

Definition completion_status (err : DWORD) (more : bool) : IoStatus :=
  if negb (err =? ERROR_SUCCESS) then StatusError err
  else if more then StatusBufferOverflow else StatusSuccess.

Section Dispatch.

Variables N M : size_t.
Variable NDEBUG : bool.
Variable os : Os.

(** An observer with the default wiring (connected, partial data and sent
    all listen) whose [OnDataReceived] answers as [respond] says. *)
Definition observer (respond : list uint8_t -> Reply) : CrPipeCallbacks :=
  mkCallbacks (ListenForData N os)
              (fun data dataSize =>
                 match respond (take_n dataSize data) with
                 | NoReply => fun w => (Returned, w)
                 | ReplySend d => SendData M NDEBUG os d (size d)
                 | ReplyListen => ListenForData N os
                 end)
              (fun _ _ => ListenForData N os)
              (ListenForData N os).

Variable callbacks_ : CrPipeCallbacks.

(** One step of a connection; [None] when the step cannot happen in [w]. *)
Definition step (ev : Step) (w : World) : option (Outcome * World) :=
  match ev with
  | ClientConnected st =>
      match self w with
      | Some p =>
          if isConnected_ p then None
          else
            let p := mkPipe (mkInfo st (state_hEvent (info_ p))
                               (self_set (info_ p)))
                       (pipeHandle_ p) (readBuffer_ p) (writeBuffer_ p)
                       (isConnectionPending_ p) (isConnected_ p) in
            Some (OnConnected NDEBUG callbacks_ (set_self (Some p) w))
      | None => None
      end
  | ReadCompletes err data more =>
      match take_read (in_flight w) with
      | Some (n, rest) =>
          if size data <=? n
          then Some (ReadCompleted NDEBUG os callbacks_ err (size data)
                       (retire rest (completion_status err more) data w))
          else None
      | None => None
      end
  | WriteCompletes err numBytesWritten =>
      match take_write (in_flight w) with
      | Some (_, rest) =>
          Some (WriteCompleted NDEBUG os callbacks_ err numBytesWritten
                  (retire rest (completion_status err false) [] w))
      | None => None
      end
  end.

(** A read of [n] bytes from a pipe in message mode that holds the unread
    [rest] of a message: the bytes delivered, whether the message was
    truncated (more data), and what stays in the pipe. *)
Definition message_read (n : DWORD) (rest : list uint8_t)
  : list uint8_t * bool * list uint8_t :=
  if size rest <=? n then (rest, false, [])
  else (take_n n rest, true, drop_n n rest).

(** A client's message [msg] reaches the pipe: the read in flight completes
    with its first chunk, and every read issued while the rest is still in
    the pipe completes with the next one.  The result is [None] if no read
    is in flight to take a chunk, if a completion routine does not return,
    or if [fuel] reads did not drain the message. *)
Fixpoint receive_message (fuel : nat) (msg : list uint8_t) (w : World)
  : option World :=
  match fuel with
  | O => None
  | S fuel' =>
      match take_read (in_flight w) with
      | Some (n, _) =>
          let '(data, more, rest) := message_read n msg in
          match step (ReadCompletes ERROR_SUCCESS data more) w with
          | Some (Returned, w') =>
              if more then receive_message fuel' rest w' else Some w'
          | _ => None
          end
      | None => None
      end
  end.

End Dispatch.

(** The notifications in a trace, in order. *)
Fixpoint notifications (t : list Event) : list Notification :=
  match t with
  | [] => []
  | Notify n :: t' => n :: notifications t'
  | _ :: t' => notifications t'
  end.

(** The bytes a notification shows the observer: the first [dataSize] bytes
    at [data]. *)
Definition delivered (n : Notification) : list uint8_t :=
  match n with
  | DataReceived data dataSize => take_n dataSize data
  | PartialDataReceived data dataSize => take_n dataSize data
  | _ => []
  end.



(** At most one operation is or ever was in flight or asked for at a time,
    and only a live, connected pipe has one. *)
Definition single_flight (w : World) : Prop :=
  (length (in_flight w) <= 1)%nat /\ (peak w <= 1)%nat /\
  (in_flight w <> [] -> exists p, self w = Some p /\ isConnected_ p = true).

(** Nothing is in flight. *)
Definition quiet (w : World) : Prop :=
  in_flight w = [] /\ (peak w <= 1)%nat.

(** A connected pipe waiting in a read of [N] bytes, as [ListenForData]
    leaves it. *)
Definition listening (N : size_t) (w : World) : Prop :=
  exists p, self w = Some p /\ isConnected_ p = true
            /\ self_set (info_ p) = true
            /\ size (readBuffer_ p) = N /\ in_flight w = [ReadOp N].

(** A connection before its client: created, not connected, nothing in
    flight. *)
Definition fresh_connection (w : World) : Prop :=
  (exists p, self w = Some p /\ isConnected_ p = false)
  /\ in_flight w = [] /\ peak w = O.

(** The states a connection can get into, whatever the system answers and
    whatever the application's [OnDataReceived] replies at each step. *)
Inductive reachable (N M : size_t) (NDEBUG : bool) : World -> Prop :=
| reachable_fresh (w : World) :
    fresh_connection w -> reachable N M NDEBUG w
| reachable_step (w w' : World) (os : Os) (respond : list uint8_t -> Reply)
    (ev : Step) (o : Outcome) :
    reachable N M NDEBUG w ->
    step NDEBUG os (observer N M NDEBUG os respond) ev w = Some (o, w') ->
    reachable N M NDEBUG w'.

(** *** Sample surroundings *)

(** A system that accepts every request and reports a pending connect. *)
Definition os_accepts_all : Os :=
  mkOs (fun _ _ => (3, ERROR_SUCCESS)) (fun _ => ERROR_IO_PENDING)
       (fun _ => None) (fun _ => None) (fun _ => None) (fun _ => None).

(** A pipe of read capacity 2 and write capacity 4 after [Connect], and a
    world around it with [ops] in flight. *)
Definition sample_pipe (connected : bool) : CrPipe :=
  mkPipe (PipeInfo_Set 7) 3 [0; 0] [0; 0; 0; 0] false connected.

Definition sample_world (connected : bool) (ops : list AsyncOp) : World :=
  mkWorld (Some (sample_pipe connected)) ERROR_SUCCESS ops (length ops) [].

End Server.

(** ** pipes.h: the client side *)

Module Client.

(** [ClientPipe<N>]. *)
Record ClientPipe : Type := mkClient {
  pipeHandle_ : HANDLE;
  readBuffer_ : list uint8_t
}.

Inductive Event : Type :=
| CallCreateFile (name : string)
| CallSetNamedPipeHandleState (h : HANDLE)
| CallWaitNamedPipe (name : string) (nTimeOut : DWORD).

Record World : Type := mkWorld {
  this : ClientPipe;
  last_error : DWORD;
  trace : list Event
}.

Definition log (e : Event) (w : World) : World :=
  mkWorld (this w) (last_error w) (trace w ++ [e]).
Definition SetLastError (e : DWORD) (w : World) : World :=
  mkWorld (this w) e (trace w).
Definition set_handle (h : HANDLE) (w : World) : World :=
  mkWorld (mkClient h (readBuffer_ (this w))) (last_error w) (trace w).

(** The answers of the system: the handle [CreateFile] returns and the last
    error it leaves; for the others [None] is success and [Some e] failure
    with last error [e]. *)
Record Os : Type := mkOs {
  CreateFile_reply : string -> World -> HANDLE * DWORD;
  SetNamedPipeHandleState_fails : World -> option DWORD;
  WaitNamedPipe_fails : string -> DWORD -> World -> option DWORD
}.

(** How a call that returns [bool] ends. *)
Inductive Result : Type :=
| Ret (b : bool)
| Threw (e : Error).

Section ClientPipe.

Variable os : Os.

(** [ClientPipe::IsConnected]. *)
Definition IsConnected (w : World) : bool := Handle_bool (pipeHandle_ (this w)).

(** [ClientPipe::ConnectPipeImmediately]. *)
Definition ConnectPipeImmediately (pipeName : string) (w : World)
  : Result * World :=
  let w := log (CallCreateFile pipeName) w in
  let '(h, e) := CreateFile_reply os pipeName w in
  let w := SetLastError e (set_handle h w) in
  if (pipeHandle_ (this w) =? INVALID_HANDLE_VALUE)
     && negb (last_error w =? ERROR_PIPE_BUSY)
  then (Threw (ErrorCode "Failed to open client-side pipe." (last_error w)), w)
  else if IsConnected w then
    let w := log (CallSetNamedPipeHandleState (pipeHandle_ (this w))) w in
    match SetNamedPipeHandleState_fails os w with
    | Some e' =>
        (Threw (ErrorCode "Failed to set mode of client-side pipe." e'),
         SetLastError e' w)
    | None => (Ret (IsConnected w), w)
    end
  else (Ret (IsConnected w), w).

(** [ClientPipe::WaitForPipe]. *)
Definition WaitForPipe (pipeName : string) (waitIntervalMs : size_t) (w : World)
  : Result * World :=
  let w := log (CallWaitNamedPipe pipeName (to_DWORD waitIntervalMs)) w in
  match WaitNamedPipe_fails os pipeName (to_DWORD waitIntervalMs) w with
  | None => (Ret true, w)
  | Some e =>
      let w := SetLastError e w in
      if negb (last_error w =? ERROR_SEM_TIMEOUT)
      then (Threw (ErrorCode "Waiting for pipe failed." (last_error w)), w)
      else (Ret false, w)
  end.

(** [ClientPipe::Connect]. *)
Definition Connect (pipeName : string) (waitIntervalMs : size_t) (w : World)
  : Result * World :=
  match ConnectPipeImmediately pipeName w with
  | (Ret true, w) => (Ret true, w)
  | (Ret false, w) =>
      match WaitForPipe pipeName waitIntervalMs w with
      | (Ret true, w) => ConnectPipeImmediately pipeName w
      | (Ret false, w) => (Ret false, w)
      | (Threw e, w) => (Threw e, w)
      end
  | (Threw e, w) => (Threw e, w)
  end.

End ClientPipe.

(** [ClientPipe()]: no handle yet. *)
Definition new_ClientPipe (readBuffer : list uint8_t) : World :=
  mkWorld (mkClient NULL readBuffer) ERROR_SUCCESS [].

(** The number of times a trace opens the pipe. *)
Fixpoint opens (t : list Event) : nat :=
  match t with
  | [] => O
  | CallCreateFile _ :: t' => S (opens t')
  | _ :: t' => opens t'
  end.

(** The waits of a trace, with their time-outs. *)
Fixpoint waits (t : list Event) : list DWORD :=
  match t with
  | [] => []
  | CallWaitNamedPipe _ ms :: t' => ms :: waits t'
  | _ :: t' => waits t'
  end.

(** Windows and a pipe name under which no pipe exists: [CreateFile] fails
    with [ERROR_FILE_NOT_FOUND], and [WaitNamedPipe] fails at once with the
    same error, whatever the time-out. *)
Definition os_no_such_pipe : Os :=
  mkOs (fun _ _ => (INVALID_HANDLE_VALUE, ERROR_FILE_NOT_FOUND))
       (fun _ => None)
       (fun _ _ _ => Some ERROR_FILE_NOT_FOUND).

(** Windows and a pipe all of whose instances stay busy: [CreateFile] fails
    with [ERROR_PIPE_BUSY] and [WaitNamedPipe] times out. *)
Definition os_all_instances_busy : Os :=
  mkOs (fun _ _ => (INVALID_HANDLE_VALUE, ERROR_PIPE_BUSY))
       (fun _ => None)
       (fun _ _ _ => Some ERROR_SEM_TIMEOUT).

End Client.

(** ** More sample surroundings *)

Module ServerSamples.
Import Server.

(** A system on which the client has gone: reads and writes are rejected
    with [ERROR_BROKEN_PIPE], the pipe can still be severed. *)
Definition os_client_gone : Os :=
  mkOs (fun _ _ => (3, ERROR_SUCCESS)) (fun _ => ERROR_IO_PENDING)
       (fun _ => None) (fun _ => Some 109) (fun _ => Some 109) (fun _ => None).

(** A system that cannot create the pipe: [ERROR_ACCESS_DENIED]. *)
Definition os_cannot_create : Os :=
  mkOs (fun _ _ => (INVALID_HANDLE_VALUE, 5)) (fun _ => ERROR_IO_PENDING)
       (fun _ => None) (fun _ => None) (fun _ => None) (fun _ => None).

(** A new pipe of read capacity 2 and write capacity 4, before [Connect]. *)
Definition new_world : World :=
  mkWorld (Some (new_CrPipe [0; 0] [0; 0; 0; 0])) ERROR_SUCCESS [] O [].

(** A pipe whose connect operation is still pending. *)
Definition pending_world : World :=
  mkWorld (Some (mkPipe (mkInfo StatusPending 7 true) 3 [0; 0] [0; 0; 0; 0]
                   true false))
          ERROR_IO_PENDING [] O [].

End ServerSamples.

(** ** pipes.h: the blocking operations of the client *)

Module ClientIO.

(** Calls of these operations to the system. *)
Inductive Call : Type :=
| CallWriteFile (h : HANDLE) (bytes : list uint8_t)
| CallReadFile (h : HANDLE) (nNumberOfBytesToRead : DWORD)
| CallCloseHandle (h : HANDLE).

(** The client pipe, the last error of its thread and the calls so far. *)
Record State : Type := mkState {
  this : Client.ClientPipe;
  last_error : DWORD;
  calls : list Call
}.

Definition handle (st : State) : HANDLE := Client.pipeHandle_ (this st).

Definition log (c : Call) (st : State) : State :=
  mkState (this st) (last_error st) (calls st ++ [c]).

(** How an operation ends; [Blocked] is a call the system never answers. *)
Inductive Outcome : Type :=
| Returned
| Threw (e : Error)
| AssertionFailed (expr : string)
| Blocked.

(** [ClientPipe::IsConnected]. *)
Definition IsConnected (st : State) : bool := Handle_bool (handle st).

(** [ClientPipe::Disconnect]. *)
Definition Disconnect (st : State) : State :=
  let st := log (CallCloseHandle (handle st)) st in
  mkState (Client.mkClient NULL (Client.readBuffer_ (this st)))
          (last_error st) (calls st).

(** [Handle::~Handle]. *)
Definition Handle_destroy (st : State) : State :=
  if negb (handle st =? NULL) && negb (handle st =? INVALID_HANDLE_VALUE)
  then log (CallCloseHandle (handle st)) st
  else st.

(** [ClientPipe::~ClientPipe], followed by the destructor of its handle. *)
Definition destroy (st : State) : State :=
  Handle_destroy (if Handle_bool (handle st) then Disconnect st else st).

(** The handles a list of calls closes, in order. *)
Fixpoint closed (cs : list Call) : list HANDLE :=
  match cs with
  | [] => []
  | CallCloseHandle h :: cs' => h :: closed cs'
  | _ :: cs' => closed cs'
  end.

(** The reads of a list of calls, with the sizes asked for. *)
Fixpoint reads (cs : list Call) : list DWORD :=
  match cs with
  | [] => []
  | CallReadFile _ n :: cs' => n :: reads cs'
  | _ :: cs' => reads cs'
  end.

(** [PipeBuffer::Put] of the test client, the sink [WaitForData] fills. *)
Definition PipeBuffer_Put (buffer : list uint8_t) (data : list uint8_t)
  (dataSize : size_t) : list uint8_t :=
  buffer ++ take_n dataSize data.

(** An answer of the system to [ReadFile]: whether it succeeded, the bytes
    it stored, and the last error it left. *)
Record ReadReply : Type := mkReply {
  succeeded : bool;
  bytes : list uint8_t;
  error : DWORD
}.

Section ClientPipe.

(** Template parameter, and whether [assert] is compiled out. *)
Variable N : size_t.
Variable NDEBUG : bool.

(** One [ReadFile] into the read buffer, answered by [r]. *)
Definition ReadFile (r : ReadReply) (st : State) : State :=
  let st := log (CallReadFile (handle st) (to_DWORD N)) st in
  mkState (Client.mkClient (handle st)
             (bytes r ++ drop_n (size (bytes r)) (Client.readBuffer_ (this st))))
          (if succeeded r then last_error st else error r)
          (calls st).

(** The loop of [ClientPipe::WaitForData]; [replies] are the answers of the
    system to the successive [ReadFile] calls. *)
Fixpoint read_until_finished (replies : list ReadReply) (st : State)
  (buffer : list uint8_t) : Outcome * State * list uint8_t :=
  match replies with
  | [] => (Blocked, log (CallReadFile (handle st) (to_DWORD N)) st, buffer)
  | r :: replies' =>
      let st := ReadFile r st in
      let isFinished := succeeded r in
      if negb isFinished && negb (last_error st =? ERROR_MORE_DATA)
      then (Threw (ErrorCode "Failed to read from client-side pipe."
                     (last_error st)), st, buffer)
      else
        let buffer := PipeBuffer_Put buffer (Client.readBuffer_ (this st))
                        (size (bytes r)) in
        if isFinished then (Returned, st, buffer)
        else read_until_finished replies' st buffer
  end.

(** [ClientPipe::WaitForData]. *)
Definition WaitForData (replies : list ReadReply) (st : State)
  (buffer : list uint8_t) : Outcome * State * list uint8_t :=
  if NDEBUG || IsConnected st then
    if negb (IsConnected st) then (Returned, st, buffer)
    else read_until_finished replies st buffer
  else (AssertionFailed "IsConnected()", st, buffer).

End ClientPipe.

(** The answers of a pipe in message mode that holds the message [msg] to
    reads of [n] bytes: truncated reads with [ERROR_MORE_DATA] while more
    than [n] bytes are left, then one read that succeeds.  [fuel] bounds the
    number of answers. *)
Fixpoint message_replies (n : DWORD) (fuel : nat) (msg : list uint8_t)
  : list ReadReply :=
  match fuel with
  | O => []
  | S fuel' =>
      if size msg <=? n then [mkReply true msg ERROR_SUCCESS]
      else mkReply false (take_n n msg) ERROR_MORE_DATA
           :: message_replies n fuel' (drop_n n msg)
  end.

(** A connected client of read capacity 2, and one that never connected. *)
Definition sample_client (h : HANDLE) : State :=
  mkState (Client.mkClient h [0; 0]) ERROR_SUCCESS [].

End ClientIO.

(** ** pipes.h: the accept and dispatch loop of the server *)

Module ServerLoop.
Import Server.

Definition WAIT_IO_COMPLETION : DWORD := 192.

(** A completion routine the system runs during an alertable wait, for an
    operation of the [pipe]-th connection that was cast loose. *)
Inductive Apc : Type :=
| ReadDone (pipe : nat) (err : DWORD) (data : list uint8_t) (more : bool)
| WriteDone (pipe : nat) (err numBytesWritten : DWORD).

(** What one [WaitForSingleObjectEx] brings: the completion routines that
    ran while waiting, the result, the status the system left in the
    [OVERLAPPED] record of the current pipe's connect, the last error, and
    what the heap holds where the next pipe's buffers will be. *)
Record WaitReply : Type := mkWait {
  ran : list Apc;
  result : DWORD;
  connect_status : IoStatus;
  wait_error : DWORD;
  heap_read : list uint8_t;
  heap_write : list uint8_t
}.

Inductive ServerEvent : Type :=
| SignalReady (h : HANDLE)
| CallWaitForSingleObjectEx (h : HANDLE).

(** The server thread: the pipe that waits for the next client, the
    connections cast loose (each with its own surroundings), the last error
    of the thread, and the server's own calls. *)
Record ServerState : Type := mkServer {
  nextPipe : World;
  cast_off : list World;
  thread_error : DWORD;
  server_trace : list ServerEvent
}.

(** [Run] has no way to return: it is found waiting when the answers of the
    system run out, or it was left by an exception or a failed assertion. *)
Inductive RunResult : Type :=
| Waiting (s : ServerState)
| Stopped (o : Outcome) (s : ServerState).

Fixpoint put_back (i : nat) (w : World) (ws : list World) : list World :=
  match ws, i with
  | [], _ => []
  | _ :: ws', O => w :: ws'
  | w0 :: ws', S i' => w0 :: put_back i' w ws'
  end.

Definition log_server (e : ServerEvent) (s : ServerState) : ServerState :=
  mkServer (nextPipe s) (cast_off s) (thread_error s) (server_trace s ++ [e]).

Section CrPipeServer.

Variables N M : size_t.
Variable NDEBUG : bool.
Variable os : Os.
Variable callbacks_ : CrPipeCallbacks.
(** [sharedEvent_.Handle()] and [pipeReadyEvent_]. *)
Variable sharedEvent : HANDLE.
Variable pipeReadyEvent_ : HANDLE.

(** [nextPipe = new CrPipe<N, M>(callbacks_); nextPipe->Connect(...)]. *)
Definition new_pipe (pipeName : string) (readBuffer writeBuffer : list uint8_t)
  (s : ServerState) : Outcome * ServerState :=
  let '(o, w) :=
    Connect N os pipeName sharedEvent
      (mkWorld (Some (new_CrPipe readBuffer writeBuffer)) (thread_error s)
         [] O []) in
  (o, mkServer w (cast_off s) (last_error w) (server_trace s)).

(** One completion routine, on the connection it belongs to. *)
Definition run_apc (a : Apc) (s : ServerState) : Outcome * ServerState :=
  let '(i, ev) :=
    match a with
    | ReadDone i err data more => (i, ReadCompletes err data more)
    | WriteDone i err n => (i, WriteCompletes err n)
    end in
  match nth_error (cast_off s) i with
  | Some w =>
      match step NDEBUG os callbacks_ ev (SetLastError (thread_error s) w) with
      | Some (o, w') =>
          (o, mkServer (nextPipe s) (put_back i w' (cast_off s))
                (last_error w') (server_trace s))
      | None => (Returned, s)
      end
  | None => (Returned, s)
  end.

Fixpoint run_apcs (l : list Apc) (s : ServerState) : Outcome * ServerState :=
  match l with
  | [] => (Returned, s)
  | a :: l' =>
      match run_apc a s with
      | (Returned, s') => run_apcs l' s'
      | r => r
      end
  end.

(** The [case 0] of the loop: [nextPipe->OnConnected()], then a new pipe. *)
Definition client_connected (pipeName : string) (r : WaitReply)
  (s : ServerState) : Outcome * ServerState :=
  let w := nextPipe s in
  let w :=
    match self w with
    | Some p =>
        set_self (Some (mkPipe (mkInfo (connect_status r)
                                  (state_hEvent (info_ p)) (self_set (info_ p)))
                          (pipeHandle_ p) (readBuffer_ p) (writeBuffer_ p)
                          (isConnectionPending_ p) (isConnected_ p))) w
    | None => w
    end in
  let '(o, w') := OnConnected NDEBUG callbacks_ (SetLastError (thread_error s) w) in
  match o with
  | Returned =>
      new_pipe pipeName (heap_read r) (heap_write r)
        (mkServer w' (cast_off s ++ [w']) (last_error w') (server_trace s))
  | _ => (o, mkServer w' (cast_off s) (last_error w') (server_trace s))
  end.

(** The [while (true)] loop of [CrPipeServer::Run]. *)
Fixpoint loop (pipeName : string) (waits : list WaitReply) (s : ServerState)
  : RunResult :=
  let s := log_server (CallWaitForSingleObjectEx sharedEvent) s in
  match waits with
  | [] => Waiting s
  | r :: waits' =>
      match run_apcs (ran r) s with
      | (Returned, s) =>
          if result r =? 0 then
            match client_connected pipeName r s with
            | (Returned, s) => loop pipeName waits' s
            | (o, s) => Stopped o s
            end
          else if result r =? WAIT_IO_COMPLETION then loop pipeName waits' s
          else
            Stopped
              (Threw (ErrorCode
                        "Unexpected result from Win API WaitForSingleObjectEx."
                        (wait_error r)))
              (mkServer (nextPipe s) (cast_off s) (wait_error r)
                 (server_trace s))
      | (o, s) => Stopped o s
      end
  end.

(** [CrPipeServer::Run]. *)
Definition Run (pipeName : string) (readBuffer writeBuffer : list uint8_t)
  (e0 : DWORD) (waits : list WaitReply) : RunResult :=
  match new_pipe pipeName readBuffer writeBuffer
          (mkServer (mkWorld None e0 [] O []) [] e0 []) with
  | (Returned, s) =>
      let s := if pipeReadyEvent_ =? NULL then s
               else log_server (SignalReady pipeReadyEvent_) s in
      loop pipeName waits s
  | (o, s) => Stopped o s
  end.

End CrPipeServer.

(** The state a run ended in. *)
Definition final_state (r : RunResult) : ServerState :=
  match r with Waiting s => s | Stopped _ s => s end.

(** The number of waits that reported a client. *)
Definition clients (waits : list WaitReply) : nat :=
  length (filter (fun r => result r =? 0) waits).

(** A wait that reports a client whose connect has completed, and one that
    reports a finished read of the first connection. *)
Definition client_arrives : WaitReply :=
  mkWait [] 0 StatusSuccess ERROR_SUCCESS [0; 0] [0; 0; 0; 0].
Definition read_finishes (data : list uint8_t) : WaitReply :=
  mkWait [ReadDone 0 ERROR_SUCCESS data false] WAIT_IO_COMPLETION
         StatusSuccess ERROR_SUCCESS [] [].

End ServerLoop.

(** ** error.h: the text of an error *)

Module ErrorMessage.

(** The value of an [int] initialised from [z]: 32 bits, two's complement. *)
Definition to_int (z : Z) : Z :=
  let u := z mod 2 ^ 32 in
  if 2 ^ 31 <=? u then u - 2 ^ 32 else u.

(** [std::to_string(int)]: decimal digits, with a minus sign when negative. *)
Definition to_string (n : Z) : string :=
  DecimalString.NilEmpty.string_of_int (Z.to_int n).

(** The line feed of the string literal in [FormatText]. *)
Definition newline : string := String (Ascii.ascii_of_nat 10) EmptyString.

(** [Error::FormatText]. *)
Definition FormatText (text : string) (err : Z) : string :=
  let fullText := text in
  let fullText := (fullText ++ (newline ++ "Error code: "))%string in
  let fullText := (fullText ++ to_string err)%string in
  (fullText ++ ".")%string.

(** [what()] of an [ipc::Error], for both constructors; the code passed is
    converted to the [int] parameter of the constructor. *)
Definition what (e : Error) : string :=
  match e with
  | ErrorText text => text
  | ErrorCode text err => FormatText text (to_int err)
  end.

End ErrorMessage.

(** ** test_pipe_server.cpp: the echo observer *)

Module Echo.

(** The bytes of a narrow string literal. *)
Definition bytes_of (s : string) : list uint8_t :=
  map (fun c => Z.of_nat (nat_of_ascii c)) (list_ascii_of_string s).

Definition response_prefix : list uint8_t :=
  bytes_of "Pipe server received data: ".
Definition response_none : list uint8_t := bytes_of "<none>".

(** [EchoPipe]: the map from pipe handles to partial data. *)
Record EchoPipe : Type := mkEcho {
  partialDataAccumulators_ : HANDLE -> option (list uint8_t)
}.

(** [partialDataAccumulators_[h]], which makes an empty entry if none is
    there, and the assignment to it. *)
Definition accumulator (e : EchoPipe) (h : HANDLE) : list uint8_t :=
  match partialDataAccumulators_ e h with
  | Some v => v
  | None => []
  end.

Definition set_accumulator (h : HANDLE) (v : list uint8_t) (e : EchoPipe)
  : EchoPipe :=
  mkEcho (fun k => if k =? h then Some v else partialDataAccumulators_ e k).

(** [EchoPipe::OnPipeConnected], before it calls the base. *)
Definition OnPipeConnected (e : EchoPipe) (h : HANDLE) : EchoPipe :=
  set_accumulator h [] e.

(** [EchoPipe::OnPartialDataReceived], before it calls the base. *)
Definition OnPartialDataReceived (e : EchoPipe) (h : HANDLE)
  (data : list uint8_t) (dataSize : size_t) : EchoPipe :=
  set_accumulator h (accumulator e h ++ take_n dataSize data) e.

(** [EchoPipe::OnDataReceived]: the state it leaves and the response it
    hands to [SendData], with [response.size()] as the size. *)
Definition OnDataReceived (WriteBufSize : size_t) (e : EchoPipe) (h : HANDLE)
  (data : list uint8_t) (dataSize : size_t) : EchoPipe * list uint8_t :=
  let havePartialData :=
    match partialDataAccumulators_ e h with
    | Some (_ :: _) => true
    | _ => false
    end in
  let e := if havePartialData
           then set_accumulator h (accumulator e h ++ take_n dataSize data) e
           else e in
  let completeData := if havePartialData then accumulator e h else data in
  let completeDataSize :=
    if havePartialData then size (accumulator e h) else dataSize in
  let response :=
    if completeDataSize >? 0
    then response_prefix ++ take_n completeDataSize completeData
    else response_prefix ++ response_none in
  let response :=
    if size response >? WriteBufSize then take_n WriteBufSize response
    else response in
  let e := if havePartialData then set_accumulator h [] e else e in
  (e, response).

(** The observer told of the partial chunks [ps] of a message, in order. *)
Definition collect (h : HANDLE) (ps : list (list uint8_t * size_t))
  (e : EchoPipe) : EchoPipe :=
  fold_left (fun e c => OnPartialDataReceived e h (fst c) (snd c)) ps e.

(** The bytes a notification with [data] and [dataSize] shows. *)
Definition shown (c : list uint8_t * size_t) : list uint8_t :=
  take_n (snd c) (fst c).

(** No partial data anywhere. *)
Definition empty : EchoPipe := mkEcho (fun _ => None).

End Echo.

(** * Properties *)

(** ** Lists addressed by [size_t] offsets *)

Section ListFacts.
Context {A : Type}.

Lemma size_app (l1 l2 : list A) : size (l1 ++ l2) = size l1 + size l2.
Proof. unfold size. rewrite length_app. lia. Qed.

Lemma size_nonneg (l : list A) : 0 <= size l.
Proof. unfold size. lia. Qed.

Lemma take_n_app_exact (l1 l2 : list A) : take_n (size l1) (l1 ++ l2) = l1.
Proof.
  unfold take_n, size. rewrite Nat2Z.id.
  rewrite firstn_app, Nat.sub_diag, firstn_all. simpl. apply app_nil_r.
Qed.

Lemma drop_n_app_exact (l1 l2 : list A) : drop_n (size l1) (l1 ++ l2) = l2.
Proof.
  unfold drop_n, size. rewrite Nat2Z.id.
  rewrite skipn_app, Nat.sub_diag, skipn_all. reflexivity.
Qed.

Lemma take_n_app_within (k : Z) (l1 l2 : list A) :
  k <= size l1 -> take_n k (l1 ++ l2) = take_n k l1.
Proof.
  intros Hk. unfold take_n, size in *. rewrite firstn_app.
  replace (Z.to_nat k - length l1)%nat with O by lia.
  cbn. apply app_nil_r.
Qed.

Lemma take_n_all (l : list A) : take_n (size l) l = l.
Proof. unfold take_n, size. rewrite Nat2Z.id. apply firstn_all. Qed.

Lemma size_take_n (n : Z) (l : list A) :
  0 <= n -> size (take_n n l) = Z.min n (size l).
Proof. intros Hn. unfold size, take_n. rewrite length_firstn. lia. Qed.

Lemma take_drop_n (n : Z) (l : list A) : take_n n l ++ drop_n n l = l.
Proof. apply firstn_skipn. Qed.

Lemma size_drop_n (n : Z) (l : list A) :
  0 <= n <= size l -> size (drop_n n l) = size l - n.
Proof. intros Hn. unfold size, drop_n in *. rewrite length_skipn. lia. Qed.

End ListFacts.

(** ** Codec: object representations *)

Section CodecFacts.
Import Codec.

Lemma length_le_bytes (w : nat) (x : Z) : length (le_bytes w x) = w.
Proof. revert x. induction w as [|w IH]; intros x; simpl; [|rewrite IH]; reflexivity. Qed.

Lemma le_value_le_bytes (w : nat) (x : Z) :
  le_value (le_bytes w x) = x mod 256 ^ Z.of_nat w.
Proof.
  revert x. induction w as [|w IH]; intros x.
  - simpl. now rewrite Z.mod_1_r.
  - cbn [le_bytes le_value]. rewrite IH.
    rewrite Nat2Z.inj_succ, Z.pow_succ_r by lia.
    rewrite Z.rem_mul_r by (try apply Z.pow_pos_nonneg; lia). reflexivity.
Qed.

Lemma pow256 (w : nat) : 256 ^ Z.of_nat w = 2 ^ (8 * Z.of_nat w).
Proof. rewrite Z.pow_mul_r by lia. reflexivity. Qed.

Lemma size_object_repr (T : IntType) (v : Z) : size (object_repr T v) = sizeof T.
Proof. unfold size, object_repr, sizeof. now rewrite length_le_bytes. Qed.

(** Storing a value in range and reading the object back gives the value. *)
Lemma object_value_repr (T : IntType) (v : Z) :
  in_range T v -> object_value T (object_repr T v) = v.
Proof.
  unfold in_range, object_value, object_repr.
  rewrite le_value_le_bytes, pow256. fold (bits T).
  destruct (is_signed T); cbn [andb]; intros Hr.
  - assert (Hb : 0 < bits T).
    { unfold bits in *. destruct (width T); [|lia].
      change (8 * Z.of_nat 0 - 1) with (-1) in Hr. cbn in Hr. lia. }
    assert (Hp : 2 ^ bits T = 2 * 2 ^ (bits T - 1)).
    { rewrite <- Z.pow_succ_r by lia. f_equal. lia. }
    assert (Hpos : 0 < 2 ^ (bits T - 1)) by (apply Z.pow_pos_nonneg; lia).
    destruct (Z_lt_le_dec v 0) as [Hneg|Hnn].
    + assert (Hm : v mod 2 ^ bits T = v + 2 ^ bits T).
      { symmetry. apply Z.mod_unique with (q := -1); lia. }
      rewrite Hm. destruct (Z.leb_spec (2 ^ (bits T - 1)) (v + 2 ^ bits T)); lia.
    + rewrite Z.mod_small by lia.
      destruct (Z.leb_spec (2 ^ (bits T - 1)) v); lia.
  - apply Z.mod_small. exact Hr.
Qed.

End CodecFacts.

(** ** Codec: [Take] *)

Section TakeFacts.
Import Codec.

Lemma remaining_exact (s : Source) :
  position_ok s -> remaining s = size (buffer_ s) - pos_ s.
Proof.
  intros [Hp Hs]. unfold remaining, size_sub, to_size_t.
  apply Z.mod_small. lia.
Qed.

Lemma remaining_nonneg (s : Source) : 0 <= remaining s.
Proof.
  unfold remaining, size_sub, to_size_t, SIZE_MOD.
  apply Z.mod_pos_bound. lia.
Qed.

Lemma Take_zero (s : Source) : Take s 0 = (Ok nullptr, s).
Proof. reflexivity. Qed.

Lemma Take_short (s : Source) (n : Z) :
  n > remaining s -> Take s n = (Throw data_not_available, s).
Proof.
  intros Hn. pose proof (remaining_nonneg s) as H0. unfold Take.
  destruct (Z.eqb_spec n 0) as [->|_]; [lia|].
  fold (remaining s). destruct (Z.gtb_spec n (remaining s)); [reflexivity|lia].
Qed.

Lemma Take_enough (s : Source) (n : Z) :
  position_ok s -> 0 < n <= size (buffer_ s) - pos_ s ->
  Take s n = (Ok (data_plus (pos_ s)), mkSource (buffer_ s) (pos_ s + n)).
Proof.
  intros Hok Hn. pose proof (remaining_exact s Hok) as Hr. unfold Take.
  destruct (Z.eqb_spec n 0) as [->|_]; [lia|].
  fold (remaining s). rewrite Hr.
  destruct (Z.gtb_spec n (size (buffer_ s) - pos_ s)); [lia|].
  destruct Hok as [Hp Hs].
  unfold size_add, to_size_t. rewrite Z.mod_small by lia. reflexivity.
Qed.

End TakeFacts.

(** ** Codec: reading back what was written *)

Section RoundTripFacts.
Import Codec.

Lemma serialize_app (T : IntType) (v : Z) (target : list uint8_t) :
  serialize T v target = target ++ object_repr T v.
Proof.
  unfold serialize, Put. rewrite <- (size_object_repr T v).
  now rewrite take_n_all.
Qed.

Lemma in_range_zero (T : IntType) : (1 <= width T)%nat -> in_range T 0.
Proof.
  intros Hw. unfold in_range, bits.
  assert (0 < 2 ^ (8 * Z.of_nat (width T) - 1)) by (apply Z.pow_pos_nonneg; lia).
  assert (0 < 2 ^ (8 * Z.of_nat (width T))) by (apply Z.pow_pos_nonneg; lia).
  destruct (is_signed T); lia.
Qed.

(** Deserializing at the place where an object was stored. *)
Lemma deserialize_stored (T : IntType) (v : Z) (pre post : list uint8_t) :
  (1 <= width T)%nat -> in_range T v ->
  size (pre ++ object_repr T v ++ post) < SIZE_MOD ->
  deserialize T (source_at (pre ++ object_repr T v ++ post) (size pre))
  = (Ok v, source_at (pre ++ object_repr T v ++ post) (size pre + sizeof T)).
Proof.
  intros Hw Hr Hs. unfold deserialize, source_at.
  pose proof (size_nonneg pre). pose proof (size_nonneg post).
  assert (Hsz : size (pre ++ object_repr T v ++ post)
                = size pre + (sizeof T + size post)).
  { now rewrite !size_app, size_object_repr. }
  assert (Hw' : 1 <= sizeof T) by (unfold sizeof; lia).
  rewrite Take_enough; cbn [buffer_ pos_].
  - unfold load. rewrite Hsz.
    destruct (Z.leb_spec 0 (size pre)); [|lia].
    destruct (Z.leb_spec (size pre + sizeof T) (size pre + (sizeof T + size post)));
      [|lia].
    cbn [andb]. rewrite drop_n_app_exact.
    rewrite <- (size_object_repr T v), take_n_app_exact.
    now rewrite object_value_repr.
  - unfold position_ok. cbn [buffer_ pos_]. lia.
  - lia.
Qed.

Lemma size_string_data (TChar : IntType) (str : list Z) :
  size (string_data TChar str) = size str * sizeof TChar.
Proof.
  unfold string_data. induction str as [|u str IH]; [reflexivity|].
  cbn [flat_map]. rewrite size_app, size_object_repr, IH.
  unfold size. cbn [length]. lia.
Qed.

(** The string constructor reads a stored string back up to its terminator,
    provided no unit of the string is itself zero. *)
Lemma c_str_units_stored (TChar : IntType) (str : list Z) :
  (1 <= width TChar)%nat ->
  Forall (fun u => in_range TChar u /\ u <> 0) str ->
  forall (fuel : nat) (post : list uint8_t),
    (length str < fuel)%nat ->
    c_str_units TChar fuel (string_data TChar str ++ object_repr TChar 0 ++ post)
    = Ok str.
Proof.
  intros Hw Hall. induction Hall as [|u str [Hu Hnz] _ IH]; intros fuel post Hf.
  - destruct fuel as [|fuel]; [inversion Hf|].
    cbn [string_data flat_map app c_str_units].
    rewrite size_app, size_object_repr.
    pose proof (size_nonneg post).
    destruct (Z.ltb_spec (sizeof TChar + size post) (sizeof TChar)); [lia|].
    rewrite <- (size_object_repr TChar 0), take_n_app_exact.
    rewrite object_value_repr by now apply in_range_zero.
    reflexivity.
  - destruct fuel as [|fuel]; [inversion Hf|].
    cbn [string_data flat_map c_str_units]. fold (string_data TChar str).
    rewrite <- !app_assoc.
    rewrite size_app, size_object_repr.
    match goal with |- context [sizeof TChar + size ?l] =>
      pose proof (size_nonneg l) as Hl;
      destruct (Z.ltb_spec (sizeof TChar + size l) (sizeof TChar)); [lia|]
    end.
    rewrite <- (size_object_repr TChar u), take_n_app_exact, drop_n_app_exact.
    rewrite object_value_repr by exact Hu.
    destruct (Z.eqb_spec u 0); [contradiction|].
    rewrite IH by (cbn [length] in Hf; lia). reflexivity.
Qed.

Lemma serialize_string_app (TChar : IntType) (str : list Z) (target : list uint8_t) :
  size str * sizeof TChar < SIZE_MOD -> size str + 1 < SIZE_MOD ->
  serialize_string TChar str target
  = target ++ object_repr size_t_type (size str + 1)
           ++ string_data TChar str ++ object_repr TChar 0.
Proof.
  intros Hm Hl. unfold serialize_string. rewrite !serialize_app. unfold Put.
  pose proof (size_nonneg str). unfold size_add, size_mul, to_size_t.
  assert (0 <= sizeof TChar) by (unfold sizeof; lia).
  rewrite !Z.mod_small by nia.
  rewrite <- size_string_data, take_n_all. now rewrite <- !app_assoc.
Qed.

(** The integer instances of the templates are the templates at the object
    representation of the integer. *)
Lemma serialize_as_object (T : IntType) (v : Z) (target : list uint8_t) :
  serialize T v target = serialize_object (object_repr T v) target.
Proof. unfold serialize, serialize_object. now rewrite size_object_repr. Qed.

Lemma deserialize_as_object (T : IntType) (s : Source) :
  deserialize T s
  = (match fst (deserialize_object (sizeof T) s) with
     | Ok r => Ok (object_value T r)
     | Throw e => Throw e
     | Undefined u => Undefined u
     end, snd (deserialize_object (sizeof T) s)).
Proof.
  unfold deserialize, deserialize_object.
  destruct (Take s (sizeof T)) as [[p|e|u] s']; cbn [fst snd]; try reflexivity.
  unfold load, load_object. destruct p; [reflexivity|].
  destruct (_ && _); reflexivity.
Qed.

(** Deserializing at the place where the bytes of an object were stored. *)
Lemma deserialize_object_stored (r pre post : list uint8_t) :
  1 <= size r -> size (pre ++ r ++ post) < SIZE_MOD ->
  deserialize_object (size r) (source_at (pre ++ r ++ post) (size pre))
  = (Ok r, source_at (pre ++ r ++ post) (size pre + size r)).
Proof.
  intros Hr Hs. unfold deserialize_object, source_at.
  pose proof (size_nonneg pre). pose proof (size_nonneg post).
  assert (Hsz : size (pre ++ r ++ post) = size pre + (size r + size post)).
  { now rewrite !size_app. }
  rewrite Take_enough; cbn [buffer_ pos_].
  - unfold load_object. rewrite Hsz.
    destruct (Z.leb_spec 0 (size pre)); [|lia].
    destruct (Z.leb_spec (size pre + size r) (size pre + (size r + size post)));
      [|lia].
    cbn [andb]. rewrite drop_n_app_exact, take_n_app_exact. reflexivity.
  - unfold position_ok. cbn [buffer_ pos_]. lia.
  - lia.
Qed.

Lemma string_data_app (TChar : IntType) (a b : list Z) :
  string_data TChar (a ++ b) = string_data TChar a ++ string_data TChar b.
Proof. unfold string_data. apply flat_map_app. Qed.

(** Deserializing a string frame: a length field [n], units without a zero,
    a zero unit, and whatever follows.  The string ends at the zero unit and
    the position moves on by [n] bytes. *)
Lemma deserialize_string_frame (TChar : IntType) (n : Z) (units : list Z)
  (target tail : list uint8_t) :
  (1 <= width TChar)%nat ->
  Forall (fun u => in_range TChar u /\ u <> 0) units ->
  let body := string_data TChar units ++ object_repr TChar 0 ++ tail in
  let buffer := target ++ object_repr size_t_type n ++ body in
  0 < n <= size body ->
  size target + 8 + size body < SIZE_MOD ->
  deserialize_string TChar (source_at buffer (size target))
  = (Ok units, source_at buffer (size target + 8 + n)).
Proof.
  intros Hw Hall body buffer Hn Hs.
  pose proof (size_nonneg units) as Hstr. pose proof (size_nonneg target) as Htg.
  pose proof (size_nonneg tail) as Htl.
  assert (Hw' : 1 <= sizeof TChar) by (unfold sizeof; lia).
  assert (Hbody : size body = size units * sizeof TChar + (sizeof TChar + size tail)).
  { unfold body. now rewrite !size_app, size_string_data, size_object_repr. }
  assert (Hbuf : size buffer = size target + (8 + size body)).
  { unfold buffer. rewrite !size_app, size_object_repr. reflexivity. }
  unfold deserialize_string. unfold buffer at 1.
  rewrite deserialize_stored.
  - fold buffer. change (sizeof size_t_type) with 8.
    rewrite Take_enough; unfold source_at; cbn [buffer_ pos_].
    + unfold string_from_pointer. rewrite Hbuf.
      destruct (Z.leb_spec 0 (size target + 8)); [|lia].
      destruct (Z.leb_spec (size target + 8) (size target + (8 + size body)));
        [|lia].
      cbn [andb]. unfold buffer.
      replace (size target + 8)
        with (size (target ++ object_repr size_t_type n))
        by (rewrite size_app, size_object_repr; reflexivity).
      rewrite app_assoc, drop_n_app_exact. unfold body.
      rewrite c_str_units_stored; [|assumption|assumption|].
      * reflexivity.
      * pose proof (size_string_data TChar units) as Hsd.
        unfold size in Hsd, Hw', Hstr. rewrite !length_app. nia.
    + unfold position_ok. cbn [buffer_ pos_]. lia.
    + lia.
  - cbn. lia.
  - unfold in_range. cbn [is_signed size_t_type uint].
    change (2 ^ bits size_t_type) with SIZE_MOD. lia.
  - fold buffer. lia.
Qed.

(** Where deserializing a serialized string leaves the source, whatever the
    units of the string. *)
Lemma deserialize_string_position (TChar : IntType) (str : list Z)
  (target : list uint8_t) :
  (1 <= width TChar)%nat ->
  size target + 8 + (size str + 1) * sizeof TChar < SIZE_MOD ->
  snd (deserialize_string TChar
         (source_at (serialize_string TChar str target) (size target)))
  = source_at (serialize_string TChar str target)
              (size target + 8 + (size str + 1)).
Proof.
  intros Hw Hs.
  pose proof (size_nonneg str) as Hstr. pose proof (size_nonneg target) as Htg.
  assert (Hw' : 1 <= sizeof TChar) by (unfold sizeof; lia).
  assert (Hge : size str + 1 <= (size str + 1) * sizeof TChar) by nia.
  rewrite serialize_string_app by lia.
  set (data := string_data TChar str ++ object_repr TChar 0).
  assert (Hdata : size data = (size str + 1) * sizeof TChar).
  { unfold data. rewrite size_app, size_string_data, size_object_repr. lia. }
  unfold deserialize_string.
  rewrite deserialize_stored.
  - change (sizeof size_t_type) with 8.
    rewrite Take_enough; unfold source_at; cbn [buffer_ pos_].
    + reflexivity.
    + unfold position_ok. cbn [buffer_ pos_].
      rewrite !size_app, size_object_repr, Hdata.
      change (sizeof size_t_type) with 8. lia.
    + rewrite !size_app, size_object_repr, Hdata.
      change (sizeof size_t_type) with 8. lia.
  - cbn. lia.
  - unfold in_range. cbn [is_signed size_t_type uint].
    change (2 ^ bits size_t_type) with SIZE_MOD. lia.
  - rewrite !size_app, size_object_repr, Hdata.
    change (sizeof size_t_type) with 8. lia.
Qed.

Lemma Forall_in_range_nonzero (TChar : IntType) (l : list Z) :
  Forall (in_range TChar) l -> Forall (fun u => u <> 0) l ->
  Forall (fun u => in_range TChar u /\ u <> 0) l.
Proof.
  intros H1 H2. rewrite Forall_forall in *. intros u Hu. split; auto.
Qed.

End RoundTripFacts.

(** ** Codec: the claims *)

Section CodecClaims.
Import Codec.

(** C10.  For a source whose position is at most the size of its buffer:
    [Take(0)] returns the null pointer and leaves the position alone; a
    [Take(n)] that fails throws and leaves the position alone; a [Take(n)]
    with [n > 0] that succeeds returns the pointer to the [n] bytes of the
    buffer that start at the position and moves the position on by exactly
    [n]; no other outcome exists, and the position is at most the size of
    the buffer after every call. *)
Theorem Take_keeps_position_in_buffer (s : Source) (n : size_t) :
  position_ok s -> in_size_t n ->
  Take s 0 = (Ok nullptr, s)
  /\ (forall e, fst (Take s n) = Throw e -> snd (Take s n) = s)
  /\ (0 < n -> forall p, fst (Take s n) = Ok p ->
        p = data_plus (pos_ s)
        /\ pos_ s + n <= size (buffer_ s)
        /\ snd (Take s n) = mkSource (buffer_ s) (pos_ s + n))
  /\ (fst (Take s n) = Throw data_not_available \/ exists p, fst (Take s n) = Ok p)
  /\ position_ok (snd (Take s n)).
Proof.
  intros Hok [Hn0 Hn]. split; [reflexivity|].
  destruct (Z.eq_dec n 0) as [->|Hnz].
  { rewrite Take_zero. cbn [fst snd]. repeat split; try discriminate; try lia.
    - right. now exists nullptr.
    - apply Hok.
    - apply Hok.
    - apply Hok. }
  destruct (Z_gt_le_dec n (size (buffer_ s) - pos_ s)) as [Hgt|Hle].
  - rewrite Take_short by (rewrite remaining_exact by assumption; lia).
    cbn [fst snd]. repeat split; try discriminate; try apply Hok.
    now left.
  - rewrite Take_enough by (assumption || lia). cbn [fst snd].
    split; [discriminate|]. split.
    + intros _ p Hp. inversion Hp. repeat split. lia.
    + split; [right; eauto|].
      destruct Hok as [Hp Hs]. unfold position_ok. cbn [buffer_ pos_]. lia.
Qed.

Lemma Take_keeps_position_in_buffer_witness :
  position_ok (source_at [1; 2; 3] 1)
  /\ snd (Take (source_at [1; 2; 3] 1) 2) = source_at [1; 2; 3] 3.
Proof.
  assert (Hok : position_ok (source_at [1; 2; 3] 1)).
  { unfold position_ok, SIZE_MOD. cbn. lia. }
  split; [exact Hok|].
  assert (Hn : in_size_t 2) by (unfold in_size_t, SIZE_MOD; lia).
  destruct (Take_keeps_position_in_buffer (source_at [1; 2; 3] 1) 2 Hok Hn)
    as (_ & _ & Hsucc & _).
  destruct (Hsucc ltac:(lia) (data_plus 1) eq_refl) as (_ & _ & Hs).
  exact Hs.
Defined.

(** C4, as the code has it.  For a source whose position is at most the size
    of its buffer and that holds [k] remaining bytes, every [Take(n)] with
    [n > k] fails with the data-not-available error and hands out no
    pointer; a pointer that [Take] does hand out refers to [n] bytes inside
    the buffer; so deserializing a value of more than [k] bytes, or a
    string whose length field exceeds the bytes that remain after the
    field, fails with that error instead of reading out of bounds. *)
Theorem Take_beyond_remaining_fails (s : Source) (k : Z) :
  position_ok s -> pos_ s + k = size (buffer_ s) ->
  (forall n, n > k -> Take s n = (Throw data_not_available, s))
  /\ (forall n p s', in_size_t n -> Take s n = (Ok p, s') ->
        p = nullptr
        \/ (p = data_plus (pos_ s) /\ 0 <= pos_ s /\ pos_ s + n <= size (buffer_ s)))
  /\ (forall T, sizeof T > k -> deserialize T s = (Throw data_not_available, s))
  /\ (forall TChar declared s1,
        deserialize size_t_type s = (Ok declared, s1) ->
        declared > k - sizeof size_t_type ->
        deserialize_string TChar s = (Throw data_not_available, s1)).
Proof.
  intros Hok Hk.
  assert (Hrem : remaining s = k) by (rewrite remaining_exact by assumption; lia).
  assert (Hshort : forall n, n > k -> Take s n = (Throw data_not_available, s)).
  { intros n Hn. apply Take_short. lia. }
  split; [exact Hshort|]. split; [|split].
  - intros n p s' [Hn0 _] HT.
    destruct (Z.eq_dec n 0) as [->|Hnz].
    { rewrite Take_zero in HT. inversion HT. now left. }
    destruct (Z_gt_le_dec n k) as [Hgt|Hle].
    { rewrite Hshort in HT by assumption. discriminate. }
    rewrite Take_enough in HT by (assumption || lia).
    inversion HT. right. destruct Hok as [Hp _]. repeat split; lia.
  - intros T HT. unfold deserialize. now rewrite Hshort.
  - intros TChar declared s1 Hd Hdecl. unfold deserialize_string. rewrite Hd.
    assert (Hs1 : remaining s1 = k - sizeof size_t_type).
    { revert Hd. unfold deserialize.
      destruct (Z_gt_le_dec (sizeof size_t_type) k) as [Hgt|Hle].
      { rewrite Hshort by assumption. discriminate. }
      assert (H0 : 0 < sizeof size_t_type) by reflexivity.
      rewrite Take_enough by (assumption || lia).
      intros Hd. inversion Hd. subst s1.
      rewrite remaining_exact.
      - cbn [buffer_ pos_]. lia.
      - destruct Hok as [Hp Hs]. unfold position_ok. cbn [buffer_ pos_]. lia. }
    rewrite Take_short by lia. reflexivity.
Qed.

Lemma Take_beyond_remaining_fails_witness :
  position_ok (source_at [1; 2; 3] 1)
  /\ Take (source_at [1; 2; 3] 1) 3
     = (Throw data_not_available, source_at [1; 2; 3] 1).
Proof.
  assert (Hok : position_ok (source_at [1; 2; 3] 1)).
  { unfold position_ok, SIZE_MOD. cbn. lia. }
  split; [exact Hok|].
  destruct (Take_beyond_remaining_fails (source_at [1; 2; 3] 1) 2 Hok eq_refl)
    as (Hshort & _).
  apply Hshort. lia.
Defined.

(** C4 as stated fails for a source whose position lies beyond its buffer,
    as the constructor that takes a position builds it: no byte remains,
    and [Take(1)] does not fail but hands out a pointer past the end of the
    buffer. *)
Lemma Take_beyond_the_buffer_hands_out_a_pointer :
  size (buffer_ (source_at [1; 2] 3)) - pos_ (source_at [1; 2] 3) < 1
  /\ Take (source_at [1; 2] 3) 1 = (Ok (data_plus 3), source_at [1; 2] 4)
  /\ Take (source_at [1; 2] 3) 1
     <> (Throw data_not_available, source_at [1; 2] 3)
  /\ size (buffer_ (source_at [1; 2] 3)) < 3 + 1.
Proof.
  split; [cbn; lia|]. split; [reflexivity|]. split; [discriminate|cbn; lia].
Qed.

(** C2, as the code has it.  A primitive value that is serialized and then
    deserialized comes back unchanged: an integer of any width, signed or
    not, as the same value, and an object of any other primitive type with
    the same bytes.  A string over any character type, of any length, is
    rebuilt from a pointer to its first unit and so ends at its first zero
    unit: it comes back unchanged and without its terminator when none of
    its units is zero, and cut before its first zero unit otherwise. *)
Theorem round_trip_up_to_first_zero_unit
  (T TChar : IntType) (v : Z) (repr : list uint8_t) (str : list Z)
  (target : list uint8_t) :
  (1 <= width T)%nat -> in_range T v ->
  1 <= size repr ->
  (1 <= width TChar)%nat -> Forall (in_range TChar) str ->
  size target + sizeof T < SIZE_MOD ->
  size target + size repr < SIZE_MOD ->
  size target + 8 + (size str + 1) * sizeof TChar < SIZE_MOD ->
  let back :=
    fst (deserialize_string TChar
           (source_at (serialize_string TChar str target) (size target))) in
  fst (deserialize T (source_at (serialize T v target) (size target))) = Ok v
  /\ fst (deserialize_object (size repr)
            (source_at (serialize_object repr target) (size target))) = Ok repr
  /\ (Forall (fun u => u <> 0) str -> back = Ok str)
  /\ (forall pre rest, str = pre ++ 0 :: rest -> Forall (fun u => u <> 0) pre ->
        back = Ok pre).
Proof.
  intros HT Hv Hr HC Hstr HsT Hsr HsC back.
  pose proof (size_nonneg str) as Hlen. pose proof (size_nonneg target) as Htg.
  assert (Hw : 1 <= sizeof TChar) by (unfold sizeof; lia).
  split; [|split; [|split]].
  - rewrite serialize_app, <- (app_nil_r (object_repr T v)).
    rewrite deserialize_stored; [reflexivity|assumption|assumption|].
    rewrite app_nil_r, size_app, size_object_repr. lia.
  - unfold serialize_object, Put. rewrite take_n_all.
    pose proof (deserialize_object_stored repr target [] Hr) as Hback.
    rewrite app_nil_r in Hback. rewrite Hback; [reflexivity|].
    rewrite size_app. lia.
  - intros Hnz. unfold back. rewrite serialize_string_app by nia.
    rewrite <- (app_nil_r (object_repr TChar 0)).
    rewrite deserialize_string_frame; [reflexivity|assumption| | |].
    + now apply Forall_in_range_nonzero.
    + rewrite !size_app, size_string_data, size_object_repr.
      change (size (@nil uint8_t)) with 0. nia.
    + rewrite !size_app, size_string_data, size_object_repr.
      change (size (@nil uint8_t)) with 0. nia.
  - intros pre rest -> Hnz. unfold back.
    apply Forall_app in Hstr as [Hpre _].
    assert (Hsz : size (pre ++ 0 :: rest) = size pre + 1 + size rest).
    { rewrite size_app. unfold size. cbn [length]. lia. }
    pose proof (size_nonneg pre). pose proof (size_nonneg rest).
    rewrite serialize_string_app by nia. rewrite Hsz.
    rewrite string_data_app.
    change (string_data TChar (0 :: rest))
      with (object_repr TChar 0 ++ string_data TChar rest).
    rewrite <- !app_assoc.
    rewrite deserialize_string_frame; [reflexivity|assumption| | |].
    + now apply Forall_in_range_nonzero.
    + rewrite !size_app, !size_string_data, !size_object_repr. nia.
    + rewrite !size_app, !size_string_data, !size_object_repr. nia.
Qed.

Lemma round_trip_up_to_first_zero_unit_witness :
  fst (deserialize (uint 4) (source_at (serialize (uint 4) 7 []) 0)) = Ok 7
  /\ fst (deserialize_string (sint 1)
            (source_at (serialize_string (sint 1) [104; 0; 105] []) 0))
     = Ok [104].
Proof.
  destruct (round_trip_up_to_first_zero_unit (uint 4) (sint 1) 7
              [0; 0; 128; 63] [104; 0; 105] []
              ltac:(cbn; lia) ltac:(unfold in_range; cbn; lia)
              ltac:(cbn; lia) ltac:(cbn; lia)
              ltac:(repeat constructor; unfold in_range; cbn; lia)
              ltac:(unfold SIZE_MOD; cbn; lia)
              ltac:(unfold SIZE_MOD; cbn; lia)
              ltac:(unfold SIZE_MOD; cbn; lia))
    as (Hvalue & _ & _ & Hcut).
  split; [exact Hvalue|].
  apply (Hcut [104] [105]); [reflexivity|].
  repeat constructor; lia.
Defined.

(** C2 as stated fails for a string that holds a zero unit: the one-unit
    string whose unit is zero comes back empty. *)
Lemma string_with_zero_unit_comes_back_shorter :
  in_range (sint 1) 0
  /\ fst (deserialize_string (sint 1)
            (source_at (serialize_string (sint 1) [0] []) 0))
     <> Ok [0].
Proof.
  split.
  - unfold in_range. cbn. lia.
  - vm_compute. discriminate.
Qed.

End CodecClaims.

(** ** Server side: calls into a connection *)

Section ConnectionClaims.
Import Server.

Variables N M : size_t.
Variable NDEBUG : bool.
Variable os : Os.

(** C8.  On a connection whose connected flag is false, [ListenForData] and
    [SendData] return at once: no call to the system, no operation in
    flight, no disconnect, and the connection and everything around it are
    as before. *)
Theorem calls_before_connect_do_nothing
  (w : World) (p : CrPipe) (data : list uint8_t) (dataSize : size_t) :
  self w = Some p -> isConnected_ p = false ->
  ListenForData N os w = (Returned, w)
  /\ SendData M NDEBUG os data dataSize w = (Returned, w).
Proof.
  intros Hself Hc. unfold ListenForData, SendData, with_this.
  rewrite Hself, Hc. split; reflexivity.
Qed.

(** C5, as the code has it.  On a connected connection of write capacity
    [M], [SendData] with [size <= M], or with any size where [assert] is
    compiled out, copies the first [min size M] bytes of [data] into the
    write buffer (all of [data] when [size <= M], its first [M] bytes
    otherwise) and asks the system to write them, the count being passed as
    a [DWORD]: exactly those bytes when [min size M] is below 2^32.  It
    returns without an error when the system accepts the write, and runs
    [Disconnect] when the system rejects it.  Where [assert] is compiled
    in, every [size > M] stops at the assertion [dataSize <= M] with
    nothing copied and no call to the system. *)
Theorem SendData_writes_what_fits
  (w : World) (p : CrPipe) (data : list uint8_t) (dataSize : size_t) :
  self w = Some p -> isConnected_ p = true ->
  size (writeBuffer_ p) = M ->
  dataSize = size data ->
  let sent := take_n (Z.min dataSize M) data in
  let written := take_n (to_DWORD (Z.min dataSize M)) sent in
  let p1 := mkPipe (info_ p) (pipeHandle_ p) (readBuffer_ p)
              (sent ++ drop_n (Z.min dataSize M) (writeBuffer_ p))
              (isConnectionPending_ p) (isConnected_ p) in
  let w1 := request (CallWriteFileEx (pipeHandle_ p) written)
              (set_self (Some p1) w) in
  size sent = Z.min dataSize M
  /\ (dataSize <= M -> sent = data)
  /\ (dataSize > M -> sent = take_n M data /\ size sent = M)
  /\ (Z.min dataSize M < DWORD_MOD -> written = sent)
  /\ (NDEBUG = true \/ dataSize <= M ->
        SendData M NDEBUG os data dataSize w
        = match WriteFileEx_fails os w1 with
          | None => (Returned, accept (WriteOp written) w1)
          | Some e => Disconnect os (SetLastError e w1)
          end)
  /\ (NDEBUG = false -> dataSize > M ->
        SendData M NDEBUG os data dataSize w
        = (AssertionFailed "dataSize <= M", w)).
Proof.
  intros Hself Hc HM Hsz sent written p1 w1.
  pose proof (size_nonneg data) as Hd. pose proof (size_nonneg (writeBuffer_ p)) as Hw.
  assert (Hsent : size sent = Z.min dataSize M).
  { unfold sent. rewrite size_take_n by lia. lia. }
  split; [exact Hsent|]. split; [|split; [|split; [|split]]].
  - intros Hle. unfold sent. rewrite Z.min_l by lia. subst dataSize.
    apply take_n_all.
  - intros Hgt. unfold sent in *. rewrite Z.min_r in * by lia. auto.
  - intros H32. unfold written, to_DWORD. rewrite Z.mod_small by lia.
    rewrite <- Hsent. apply take_n_all.
  - intros Hdbg. unfold SendData, with_this, assert. subst w1 p1.
    rewrite Hself, Hc. cbn [negb].
    assert (Hgo : NDEBUG || (dataSize <=? M) = true).
    { destruct Hdbg as [->|Hle]; [reflexivity|].
      apply orb_true_iff. right. now apply Z.leb_le. }
    rewrite Hgo. fold sent.
    assert (Hbytes : take_n (to_DWORD (Z.min dataSize M))
                       (sent ++ drop_n (Z.min dataSize M) (writeBuffer_ p))
                     = written).
    { apply take_n_app_within. rewrite Hsent. unfold to_DWORD, DWORD_MOD.
      apply Z.mod_le; lia. }
    rewrite Hbytes. reflexivity.
  - intros Hdbg Hgt. unfold SendData, with_this, assert.
    rewrite Hself, Hc, Hdbg. cbn [negb orb].
    destruct (Z.leb_spec dataSize M); [lia|reflexivity].
Qed.

End ConnectionClaims.

Lemma SendData_writes_what_fits_witness :
  Server.SendData 4 true Server.os_accepts_all [1; 2; 3; 4; 5] 5
    (Server.sample_world true [])
  = (Server.Returned,
     Server.accept (Server.WriteOp [1; 2; 3; 4])
       (Server.request (Server.CallWriteFileEx 3 [1; 2; 3; 4])
          (Server.set_self
             (Some (Server.mkPipe (Server.PipeInfo_Set 7) 3 [0; 0]
                      [1; 2; 3; 4] false true))
             (Server.sample_world true [])))).
Proof.
  destruct (SendData_writes_what_fits 4 true Server.os_accepts_all
              (Server.sample_world true []) (Server.sample_pipe true)
              [1; 2; 3; 4; 5] 5 eq_refl eq_refl eq_refl eq_refl)
    as (_ & _ & _ & _ & Hsend & _).
  apply Hsend. left. reflexivity.
Defined.

(** C5 as stated fails where [assert] is compiled in: a send of five bytes
    on a connection of write capacity four stops at the assertion, and no
    write is issued. *)
Lemma SendData_oversize_trips_assertion :
  Server.SendData 4 false Server.os_accepts_all [1; 2; 3; 4; 5] 5
    (Server.sample_world true [])
  = (Server.AssertionFailed "dataSize <= M", Server.sample_world true [])
  /\ Server.trace (Server.sample_world true []) = [].
Proof. split; reflexivity. Qed.

Lemma calls_before_connect_do_nothing_witness :
  Server.ListenForData 2 Server.os_accepts_all (Server.sample_world false [])
  = (Server.Returned, Server.sample_world false [])
  /\ Server.SendData 4 false Server.os_accepts_all [1; 2; 3; 4; 5] 5
       (Server.sample_world false [])
     = (Server.Returned, Server.sample_world false []).
Proof.
  apply (calls_before_connect_do_nothing 2 4 false Server.os_accepts_all
           (Server.sample_world false []) (Server.sample_pipe false));
    reflexivity.
Defined.

(** ** Server side: completion routines *)

Section CompletionClaims.
Import Server.

Variable NDEBUG : bool.
Variable os : Os.
Variable callbacks_ : CrPipeCallbacks.


End CompletionClaims.



(** ** Server side: one operation at a time *)

Ltac break_match :=
  match goal with
  | |- context [match ?x with _ => _ end] =>
      match x with
      | context [match _ with _ => _ end] => fail 1
      | _ => destruct x eqn:?
      end
  | |- context [if ?x then _ else _] =>
      match x with
      | context [if _ then _ else _] => fail 1
      | _ => destruct x eqn:?
      end
  end.

Section SingleFlight.
Import Server.

Variables N M : size_t.
Variable NDEBUG : bool.
Variable os : Os.

Lemma quiet_single w : quiet w -> single_flight w.
Proof.
  intros [Hi Hp]. unfold single_flight. rewrite Hi. cbn. repeat split; auto; congruence.
Qed.

Lemma Disconnect_quiet w : quiet w -> quiet (snd (Disconnect os w)).
Proof.
  intros [Hi Hp]. unfold Disconnect, delete_this, with_this, quiet.
  destruct w as [[p|] le inf pk tr]; cbn in *; [|auto].
  repeat (break_match; cbn in * ); auto.
Qed.

Lemma request_quiet e w : quiet w -> quiet (request e w).
Proof.
  intros [Hi Hp]. unfold quiet, request. cbn. rewrite Hi. cbn. split; [reflexivity|lia].
Qed.

Lemma ListenForData_single w : quiet w -> single_flight (snd (ListenForData N os w)).
Proof.
  intros Hq. unfold ListenForData, with_this.
  destruct (self w) as [p|] eqn:Hs; [|now apply quiet_single].
  destruct (isConnected_ p) eqn:Hc; cbn [negb]; [|now apply quiet_single].
  destruct (ReadFileEx_fails os _).
  - apply quiet_single, Disconnect_quiet.
    apply (request_quiet (CallReadFileEx (pipeHandle_ p) (to_DWORD N))) in Hq.
    exact Hq.
  - destruct Hq as [Hi Hp]. unfold single_flight. cbn. rewrite Hi. cbn.
    repeat split; try lia. intros _. eauto.
Qed.

Lemma SendData_single w data dataSize :
  quiet w -> single_flight (snd (SendData M NDEBUG os data dataSize w)).
Proof.
  intros Hq. unfold SendData, with_this, assert.
  destruct (self w) as [p|] eqn:Hs; [|now apply quiet_single].
  destruct (isConnected_ p) eqn:Hc; cbn [negb]; [|now apply quiet_single].
  destruct (NDEBUG || (dataSize <=? M)); [|now apply quiet_single].
  destruct (WriteFileEx_fails os _).
  - apply quiet_single, Disconnect_quiet.
    destruct Hq as [Hi Hp]. unfold quiet. cbn. rewrite Hi. cbn. split; [reflexivity|lia].
  - destruct Hq as [Hi Hp]. unfold single_flight. cbn. rewrite Hi. cbn.
    repeat split; try lia. intros _. eauto.
Qed.

Lemma log_quiet e w : quiet w -> quiet (log e w).
Proof. intros H. exact H. Qed.

Lemma notify_single respond n w :
  quiet w -> single_flight (snd (notify (observer N M NDEBUG os respond) n w)).
Proof.
  intros Hq. unfold notify.
  destruct n; cbn [observer OnPipeConnected OnDataReceived OnPartialDataReceived OnDataSent].
  - now apply ListenForData_single, log_quiet.
  - destruct (respond _).
    + now apply quiet_single, log_quiet.
    + now apply SendData_single, log_quiet.
    + now apply ListenForData_single, log_quiet.
  - now apply ListenForData_single, log_quiet.
  - now apply ListenForData_single, log_quiet.
Qed.

Lemma OnConnected_single respond w :
  quiet w ->
  single_flight (snd (OnConnected NDEBUG (observer N M NDEBUG os respond) w)).
Proof.
  intros Hq. unfold OnConnected, with_this, assert.
  destruct (self w) as [p|] eqn:Hs; [|now apply quiet_single].
  destruct (isConnectionPending_ p).
  - destruct (GetOverlappedResult _ _) as [res e].
    destruct (NDEBUG || res).
    + now apply notify_single.
    + now apply quiet_single.
  - now apply notify_single.
Qed.

Lemma OnReadCompleted_single respond err n w :
  quiet w ->
  single_flight (snd (OnReadCompleted os (observer N M NDEBUG os respond) err n w)).
Proof.
  intros Hq. unfold OnReadCompleted, with_this.
  destruct (self w) as [p|] eqn:Hs; [|now apply quiet_single].
  destruct (negb (err =? ERROR_SUCCESS)).
  - now apply quiet_single, Disconnect_quiet.
  - destruct (GetOverlappedResult _ _) as [res e].
    destruct (_ =? ERROR_MORE_DATA); now apply notify_single.
Qed.

Lemma OnWriteCompleted_single respond err n w :
  quiet w ->
  single_flight (snd (OnWriteCompleted os (observer N M NDEBUG os respond) err n w)).
Proof.
  intros Hq. unfold OnWriteCompleted, with_this.
  destruct (self w) as [p|] eqn:Hs; [|now apply quiet_single].
  destruct (negb (err =? ERROR_SUCCESS)).
  - now apply quiet_single, Disconnect_quiet.
  - now apply notify_single.
Qed.

Lemma ReadCompleted_single respond err n w :
  quiet w ->
  single_flight (snd (ReadCompleted NDEBUG os (observer N M NDEBUG os respond) err n w)).
Proof.
  intros Hq. unfold ReadCompleted, with_this, assert.
  destruct (self w) as [p|] eqn:Hs; [|now apply quiet_single].
  destruct (self_set (info_ p)); rewrite ?orb_true_r, ?orb_false_r.
  - now apply OnReadCompleted_single.
  - destruct NDEBUG; now apply quiet_single.
Qed.

Lemma WriteCompleted_single respond err n w :
  quiet w ->
  single_flight (snd (WriteCompleted NDEBUG os (observer N M NDEBUG os respond) err n w)).
Proof.
  intros Hq. unfold WriteCompleted, with_this, assert.
  destruct (self w) as [p|] eqn:Hs; [|now apply quiet_single].
  destruct (self_set (info_ p)); rewrite ?orb_true_r, ?orb_false_r.
  - now apply OnWriteCompleted_single.
  - destruct NDEBUG; now apply quiet_single.
Qed.

Lemma take_read_single ops n rest :
  (length ops <= 1)%nat -> take_read ops = Some (n, rest) -> rest = [].
Proof.
  destruct ops as [|[m|b] [|op ops]]; cbn; intros Hl H; try discriminate;
    try (exfalso; lia).
  now inversion H.
Qed.

Lemma take_write_single ops b rest :
  (length ops <= 1)%nat -> take_write ops = Some (b, rest) -> rest = [].
Proof.
  destruct ops as [|[m|b'] [|op ops]]; cbn; intros Hl H; try discriminate;
    try (exfalso; lia).
  now inversion H.
Qed.

Lemma step_single respond ev w o w' :
  single_flight w ->
  step NDEBUG os (observer N M NDEBUG os respond) ev w = Some (o, w') ->
  single_flight w'.
Proof.
  intros (Hlen & Hpk & Hconn) Hstep. destruct ev as [st|err data more|err nw];
    cbn [step] in Hstep.
  - destruct (self w) as [p|] eqn:Hs; [|discriminate].
    destruct (isConnected_ p) eqn:Hc; [discriminate|].
    assert (Hi : in_flight w = []).
    { destruct (in_flight w) eqn:Hi; [reflexivity|exfalso].
      destruct Hconn as (p' & Hp' & Hc'); [discriminate|]. congruence. }
    match type of Hstep with Some ?r = _ =>
      assert (Hr : single_flight (snd r)) end.
    { apply OnConnected_single. split; assumption. }
    inversion Hstep as [Heq]. rewrite Heq in Hr. exact Hr.
  - destruct (take_read (in_flight w)) as [[n rest]|] eqn:Ht; [|discriminate].
    destruct (size data <=? n); [|discriminate].
    pose proof (take_read_single _ _ _ Hlen Ht) as ->.
    match type of Hstep with Some ?r = _ =>
      assert (Hr : single_flight (snd r)) end.
    { apply ReadCompleted_single. split; [reflexivity|assumption]. }
    inversion Hstep as [Heq]. rewrite Heq in Hr. exact Hr.
  - destruct (take_write (in_flight w)) as [[b rest]|] eqn:Ht; [|discriminate].
    pose proof (take_write_single _ _ _ Hlen Ht) as ->.
    match type of Hstep with Some ?r = _ =>
      assert (Hr : single_flight (snd r)) end.
    { apply WriteCompleted_single. split; [reflexivity|assumption]. }
    inversion Hstep as [Heq]. rewrite Heq in Hr. exact Hr.
Qed.

End SingleFlight.


(** The base case of the reachable states is what the code produces: a new
    pipe on which [Connect] has returned is a fresh connection. *)
Lemma Connect_leaves_fresh_connection
  (N : size_t) (os : Server.Os) (name : string) (connectedEvent : HANDLE)
  (readBuffer writeBuffer : list uint8_t) (e : DWORD) (w' : Server.World) :
  Server.Connect N os name connectedEvent
    (Server.mkWorld (Some (Server.new_CrPipe readBuffer writeBuffer)) e [] O [])
  = (Server.Returned, w') ->
  Server.fresh_connection w'.
Proof.
  unfold Server.Connect, Server.with_this. cbn [Server.self].
  destruct (Server.CreateNamedPipeA_reply os name _) as [h e1].
  destruct (h =? INVALID_HANDLE_VALUE); [discriminate|].
  destruct (_ =? ERROR_IO_PENDING).
  { intros H. inversion H. unfold Server.fresh_connection. cbn. eauto. }
  destruct (_ =? ERROR_PIPE_CONNECTED); [|discriminate].
  destruct (Server.SetEvent_fails os _); [discriminate|].
  intros H. inversion H. unfold Server.fresh_connection. cbn. eauto.
Qed.

(** C7.  In every state a connection can reach, through any sequence of
    client reports and completions, any answers of the system and any
    replies of the application's [OnDataReceived] (none, one [SendData] or
    one [ListenForData]) next to the default wiring of the other hooks, at
    most one read or write is in flight, and none was ever asked for while
    another was in flight: a new operation is requested only after the
    completion of the one before has been delivered. *)
Theorem connection_is_single_flight (N M : size_t) (NDEBUG : bool)
  (w : Server.World) :
  Server.reachable N M NDEBUG w ->
  (length (Server.in_flight w) <= 1)%nat
  /\ (Server.peak w <= 1)%nat
  /\ (Server.in_flight w <> [] ->
      exists p, Server.self w = Some p /\ Server.isConnected_ p = true).
Proof.
  induction 1 as [w ((p & Hs & Hc) & Hi & Hp)|w w' os respond ev o _ IH Hstep].
  - rewrite Hi, Hp. cbn. repeat split; auto; congruence.
  - eapply step_single; eassumption.
Qed.

Lemma connection_is_single_flight_witness :
  exists w',
    Server.step false Server.os_accepts_all
      (Server.observer 2 4 false Server.os_accepts_all (fun _ => Server.NoReply))
      (Server.ClientConnected StatusSuccess) (Server.sample_world false [])
    = Some (Server.Returned, w')
    /\ Server.in_flight w' = [Server.ReadOp 2]
    /\ (Server.peak w' <= 1)%nat.
Proof.
  eexists. split; [vm_compute; reflexivity|]. split; [reflexivity|].
  eapply (connection_is_single_flight 2 4 false).
  apply (Server.reachable_step 2 4 false (Server.sample_world false []) _
           Server.os_accepts_all (fun _ => Server.NoReply)
           (Server.ClientConnected StatusSuccess) Server.Returned).
  - apply Server.reachable_fresh. unfold Server.fresh_connection. cbn.
    repeat split; eauto.
  - reflexivity.
Defined.

(** ** Server side: a message larger than the read buffer *)

Section Framing.
Import Server.

Variable N : size_t.
Variable NDEBUG : bool.
Variable os : Os.
Hypothesis N_fits : 0 < N < DWORD_MOD.
Hypothesis reads_accepted : forall w, ReadFileEx_fails os w = None.


Lemma notifications_app t1 t2 :
  notifications (t1 ++ t2) = notifications t1 ++ notifications t2.
Proof.
  induction t1 as [|e t1 IH]; [reflexivity|].
  destruct e; cbn; rewrite ?IH; reflexivity.
Qed.




Lemma ceil_div_one (S : Z) : 1 <= S <= N -> ceil_div S N = 1.
Proof.
  intros HS. unfold ceil_div. symmetry.
  apply Z.div_unique with (r := S - 1); lia.
Qed.

Lemma ceil_div_step (S : Z) : ceil_div S N = 1 + ceil_div (S - N) N.
Proof.
  unfold ceil_div. replace (S + N - 1) with (S - N + N - 1 + 1 * N) by lia.
  rewrite Z.div_add by lia. lia.
Qed.




End Framing.


(** ** Client side: [Connect] *)

Section ClientClaims.
Import Client.

Variable os : Os.

Lemma ConnectPipeImmediately_result (pipeName : string) (w w' : World) (b : bool) :
  ConnectPipeImmediately os pipeName w = (Ret b, w') -> b = IsConnected w'.
Proof.
  unfold ConnectPipeImmediately.
  destruct (CreateFile_reply os pipeName _) as [h e].
  destruct (_ && _); [discriminate|].
  destruct (IsConnected _) eqn:Hc.
  - destruct (SetNamedPipeHandleState_fails os _); [discriminate|].
    intros H. inversion H. subst. symmetry. exact Hc.
  - intros H. inversion H. subst. symmetry. exact Hc.
Qed.

Lemma opens_app (t1 t2 : list Event) :
  opens (t1 ++ t2) = (opens t1 + opens t2)%nat.
Proof.
  induction t1 as [|x t1 IH]; [reflexivity|].
  destruct x; cbn; rewrite IH; reflexivity.
Qed.

Lemma ConnectPipeImmediately_opens (pipeName : string) (w : World) :
  opens (trace (snd (ConnectPipeImmediately os pipeName w)))
  = S (opens (trace w)).
Proof.
  unfold ConnectPipeImmediately.
  destruct (CreateFile_reply os pipeName _) as [h e].
  destruct (_ && _); cbn; [rewrite opens_app; cbn; lia|].
  destruct (IsConnected _).
  - destruct (SetNamedPipeHandleState_fails os _); cbn;
      rewrite !opens_app; cbn; lia.
  - cbn. rewrite opens_app. cbn. lia.
Qed.

(** One attempt to open the pipe, by what the system answers. *)
Lemma ConnectPipeImmediately_cases (pipeName : string) (w : World)
  (h : HANDLE) (e : DWORD) :
  CreateFile_reply os pipeName (log (CallCreateFile pipeName) w) = (h, e) ->
  let opened := SetLastError e (set_handle h (log (CallCreateFile pipeName) w)) in
  let moded := log (CallSetNamedPipeHandleState h) opened in
  (Handle_bool h = true ->
     SetNamedPipeHandleState_fails os moded = None ->
     ConnectPipeImmediately os pipeName w = (Ret true, moded))
  /\ (Handle_bool h = true ->
      forall e', SetNamedPipeHandleState_fails os moded = Some e' ->
        ConnectPipeImmediately os pipeName w
        = (Threw (ErrorCode "Failed to set mode of client-side pipe." e'),
           SetLastError e' moded))
  /\ (h = INVALID_HANDLE_VALUE -> e <> ERROR_PIPE_BUSY ->
        ConnectPipeImmediately os pipeName w
        = (Threw (ErrorCode "Failed to open client-side pipe." e), opened))
  /\ (h = INVALID_HANDLE_VALUE -> e = ERROR_PIPE_BUSY ->
        ConnectPipeImmediately os pipeName w = (Ret false, opened)).
Proof.
  intros Hreply opened moded.
  assert (Husable : Handle_bool h = true ->
                    (h =? INVALID_HANDLE_VALUE) = false).
  { unfold Handle_bool. intros Hh. apply andb_true_iff in Hh as [_ Hh].
    now apply negb_true_iff in Hh. }
  unfold ConnectPipeImmediately. rewrite Hreply. fold opened.
  unfold IsConnected.
  change (pipeHandle_ (this opened)) with h.
  change (last_error opened) with e.
  fold moded. change (pipeHandle_ (this moded)) with h.
  split; [|split; [|split]].
  - intros Hh Hmode. rewrite (Husable Hh), Hh, Hmode. reflexivity.
  - intros Hh e' Hmode. rewrite (Husable Hh), Hh, Hmode. reflexivity.
  - intros -> Hne. destruct (Z.eqb_spec e ERROR_PIPE_BUSY); [contradiction|].
    reflexivity.
  - intros -> ->. reflexivity.
Qed.

(** C3, as the code has it.  [Connect] opens the pipe at once.  When that
    gives a usable handle it puts the pipe into message mode and returns
    true, and raises an error when the pipe does not take the mode.  When
    the open fails with [ERROR_PIPE_BUSY] (no instance is available now) it
    waits with the time-out [waitIntervalMs], taken as a 32-bit value:
    after a wait that timed out it returns false and raises no error; after
    a wait that failed otherwise it raises an error; after a wait that
    succeeded it opens the pipe exactly once more, and that attempt ends as
    a first one does, with false and no further wait when every instance
    is busy again.  When an open fails with any other error, as it does for
    a name under which no pipe exists, [Connect] raises an error.  Whenever
    it returns, it returns true iff the pipe handle is usable. *)
Theorem Connect_opens_waits_and_retries_once
  (pipeName : string) (waitIntervalMs : size_t) (w : World)
  (h1 h2 : HANDLE) (e1 e2 : DWORD) :
  CreateFile_reply os pipeName (log (CallCreateFile pipeName) w) = (h1, e1) ->
  let opened := SetLastError e1 (set_handle h1 (log (CallCreateFile pipeName) w)) in
  let moded := log (CallSetNamedPipeHandleState h1) opened in
  let waiting :=
    log (CallWaitNamedPipe pipeName (to_DWORD waitIntervalMs)) opened in
  let wait := WaitNamedPipe_fails os pipeName (to_DWORD waitIntervalMs) waiting in
  CreateFile_reply os pipeName (log (CallCreateFile pipeName) waiting) = (h2, e2) ->
  let reopened :=
    SetLastError e2 (set_handle h2 (log (CallCreateFile pipeName) waiting)) in
  let remoded := log (CallSetNamedPipeHandleState h2) reopened in
  (Handle_bool h1 = true ->
     (SetNamedPipeHandleState_fails os moded = None ->
        Connect os pipeName waitIntervalMs w = (Ret true, moded))
     /\ (forall e, SetNamedPipeHandleState_fails os moded = Some e ->
           Connect os pipeName waitIntervalMs w
           = (Threw (ErrorCode "Failed to set mode of client-side pipe." e),
              SetLastError e moded)))
  /\ (h1 = INVALID_HANDLE_VALUE -> e1 <> ERROR_PIPE_BUSY ->
        Connect os pipeName waitIntervalMs w
        = (Threw (ErrorCode "Failed to open client-side pipe." e1), opened))
  /\ (h1 = INVALID_HANDLE_VALUE -> e1 = ERROR_PIPE_BUSY ->
        (wait = Some ERROR_SEM_TIMEOUT ->
           Connect os pipeName waitIntervalMs w
           = (Ret false, SetLastError ERROR_SEM_TIMEOUT waiting))
        /\ (forall e, wait = Some e -> e <> ERROR_SEM_TIMEOUT ->
              Connect os pipeName waitIntervalMs w
              = (Threw (ErrorCode "Waiting for pipe failed." e),
                 SetLastError e waiting))
        /\ (wait = None ->
              (Handle_bool h2 = true ->
                 (SetNamedPipeHandleState_fails os remoded = None ->
                    Connect os pipeName waitIntervalMs w = (Ret true, remoded))
                 /\ (forall e, SetNamedPipeHandleState_fails os remoded = Some e ->
                       Connect os pipeName waitIntervalMs w
                       = (Threw (ErrorCode
                                   "Failed to set mode of client-side pipe." e),
                          SetLastError e remoded)))
              /\ (h2 = INVALID_HANDLE_VALUE -> e2 <> ERROR_PIPE_BUSY ->
                    Connect os pipeName waitIntervalMs w
                    = (Threw (ErrorCode "Failed to open client-side pipe." e2),
                       reopened))
              /\ (h2 = INVALID_HANDLE_VALUE -> e2 = ERROR_PIPE_BUSY ->
                    Connect os pipeName waitIntervalMs w = (Ret false, reopened))
              /\ opens (trace (snd (Connect os pipeName waitIntervalMs w)))
                 = S (S (opens (trace w)))))
  /\ (forall b w', Connect os pipeName waitIntervalMs w = (Ret b, w') ->
        b = IsConnected w').
Proof.
  intros Hreply opened moded waiting wait Hreply2 reopened remoded.
  destruct (ConnectPipeImmediately_cases pipeName w h1 e1 Hreply)
    as (Hok1 & Hmode1 & Hfail1 & Hbusy1).
  destruct (ConnectPipeImmediately_cases pipeName waiting h2 e2 Hreply2)
    as (Hok2 & Hmode2 & Hfail2 & Hbusy2).
  fold opened in Hok1, Hmode1, Hfail1, Hbusy1. fold moded in Hok1, Hmode1.
  fold reopened in Hok2, Hmode2, Hfail2, Hbusy2. fold remoded in Hok2, Hmode2.
  split; [|split; [|split]].
  - intros Hh. split.
    + intros Hmode. unfold Connect. now rewrite (Hok1 Hh Hmode).
    + intros e Hmode. unfold Connect. now rewrite (Hmode1 Hh e Hmode).
  - intros Hh Hne. unfold Connect. now rewrite (Hfail1 Hh Hne).
  - intros Hh He. unfold Connect. rewrite (Hbusy1 Hh He).
    unfold WaitForPipe. fold waiting. fold wait.
    split; [|split].
    + intros ->. reflexivity.
    + intros e -> Hne. replace (last_error (SetLastError e waiting)) with e
        by reflexivity.
      destruct (Z.eqb_spec e ERROR_SEM_TIMEOUT); [contradiction|]. reflexivity.
    + intros ->. split; [|split; [|split]].
      * intros Hh2. split.
        -- intros Hmode. now apply Hok2.
        -- intros e Hmode. now apply Hmode2.
      * intros Hh2 Hne. now apply Hfail2.
      * intros Hh2 He2. now apply Hbusy2.
      * rewrite ConnectPipeImmediately_opens.
        subst waiting opened. cbn [trace log SetLastError set_handle].
        rewrite !opens_app. cbn. lia.
  - clear.
    intros b w' HC. unfold Connect in HC.
    destruct (ConnectPipeImmediately os pipeName w) as [[[|]|e] wa] eqn:Hfirst.
    + inversion HC. subst. now apply ConnectPipeImmediately_result in Hfirst.
    + apply ConnectPipeImmediately_result in Hfirst.
      unfold WaitForPipe in HC.
      destruct (WaitNamedPipe_fails os pipeName _ _) as [e|].
      * destruct (negb _); [discriminate|]. inversion HC. subst. exact Hfirst.
      * now apply ConnectPipeImmediately_result in HC.
    + discriminate.
Qed.

End ClientClaims.

Lemma Connect_opens_waits_and_retries_once_witness :
  Client.Connect Client.os_all_instances_busy "\\.\pipe\testpipe" 50
    (Client.new_ClientPipe [])
  = (Client.Ret false,
     Client.SetLastError ERROR_SEM_TIMEOUT
       (Client.log (Client.CallWaitNamedPipe "\\.\pipe\testpipe" 50)
          (Client.SetLastError ERROR_PIPE_BUSY
             (Client.set_handle INVALID_HANDLE_VALUE
                (Client.log (Client.CallCreateFile "\\.\pipe\testpipe")
                   (Client.new_ClientPipe [])))))).
Proof.
  destruct (Connect_opens_waits_and_retries_once Client.os_all_instances_busy
              "\\.\pipe\testpipe" 50 (Client.new_ClientPipe [])
              INVALID_HANDLE_VALUE INVALID_HANDLE_VALUE
              ERROR_PIPE_BUSY ERROR_PIPE_BUSY eq_refl eq_refl)
    as (_ & _ & Hbusy & _).
  destruct (Hbusy eq_refl eq_refl) as (Htimeout & _).
  apply Htimeout. reflexivity.
Defined.

(** C3 as stated fails for a name under which no pipe exists: the open
    fails with [ERROR_FILE_NOT_FOUND], which is not [ERROR_PIPE_BUSY], and
    [Connect] raises an error instead of returning false. *)
Lemma Connect_to_missing_pipe_raises :
  fst (Client.Connect Client.os_no_such_pipe "\\.\pipe\nosuchpipe" 50
         (Client.new_ClientPipe []))
  = Client.Threw (ErrorCode "Failed to open client-side pipe." ERROR_FILE_NOT_FOUND)
  /\ fst (Client.Connect Client.os_no_such_pipe "\\.\pipe\nosuchpipe" 50
            (Client.new_ClientPipe []))
     <> Client.Ret false.
Proof. split; [reflexivity|discriminate]. Qed.

(** ** The scenarios of the specification, run on the model *)

(** Forced overflow: read capacity 20 and a message of 55 bytes give two
    partial notifications of 20 bytes and a final one of 15. *)
Example forced_overflow_scenario :
  let w := Server.mkWorld
             (Some (Server.mkPipe (Server.PipeInfo_Set 7) 3 (repeat 0 20)
                      (repeat 0 20) false true))
             ERROR_SUCCESS [Server.ReadOp 20] 1 [] in
  option_map
    (fun w' => map (fun n => (match n with
                              | Server.PartialDataReceived _ _ => true
                              | _ => false
                              end, size (Server.delivered n)))
                 (Server.notifications (Server.trace w')))
    (Server.receive_message false Server.os_accepts_all
       (Server.default_callbacks 20 Server.os_accepts_all) 56 (repeat 7 55) w)
  = Some [(true, 20); (true, 20); (false, 15)].
Proof. vm_compute. reflexivity. Qed.

(** Connect time-out: every instance busy and a wait of 50 ms that times
    out give false after one open and one wait of 50 ms. *)
Example connect_timeout_scenario :
  let r := Client.Connect Client.os_all_instances_busy "\\.\pipe\testpipe" 50
             (Client.new_ClientPipe []) in
  fst r = Client.Ret false
  /\ Client.opens (Client.trace (snd r)) = 1%nat
  /\ Client.waits (Client.trace (snd r)) = [50].
Proof. repeat split. Qed.

(** * Further properties of the code *)

(** ** Codec: frames in a buffer *)

Section CodecFrames.
Import Codec.

Lemma size_serialize_string (TChar : IntType) (str : list Z)
  (target : list uint8_t) :
  (1 <= width TChar)%nat ->
  size target + 8 + (size str + 1) * sizeof TChar < SIZE_MOD ->
  size (serialize_string TChar str target)
  = size target + 8 + (size str + 1) * sizeof TChar.
Proof.
  intros Hw1 Hs.
  pose proof (size_nonneg str) as Hstr. pose proof (size_nonneg target) as Htg.
  assert (Hw : 1 <= sizeof TChar) by (unfold sizeof; lia).
  rewrite serialize_string_app by nia.
  rewrite !size_app, !size_object_repr, size_string_data.
  change (sizeof size_t_type) with 8. lia.
Qed.

(** X1.  A string frame appended to [target]: [target] is left as it was, the
    frame takes 8 bytes for the length and [length + 1] units, and its
    length field reads back as the number of units plus one. *)
Theorem string_frame_layout (TChar : IntType) (str : list Z)
  (target : list uint8_t) :
  (1 <= width TChar)%nat ->
  size target + 8 + (size str + 1) * sizeof TChar < SIZE_MOD ->
  take_n (size target) (serialize_string TChar str target) = target
  /\ size (serialize_string TChar str target)
     = size target + 8 + (size str + 1) * sizeof TChar
  /\ fst (deserialize size_t_type
            (source_at (serialize_string TChar str target) (size target)))
     = Ok (size str + 1).
Proof.
  intros Hw1 Hs.
  pose proof (size_nonneg str) as Hstr. pose proof (size_nonneg target) as Htg.
  assert (Hw : 1 <= sizeof TChar) by (unfold sizeof; lia).
  rewrite serialize_string_app by nia.
  split; [apply take_n_app_exact|]. split.
  - rewrite !size_app, !size_object_repr, size_string_data.
    change (sizeof size_t_type) with 8. lia.
  - rewrite deserialize_stored; [reflexivity| cbn; lia | |].
    + unfold in_range. cbn [is_signed size_t_type uint].
      change (2 ^ bits size_t_type) with SIZE_MOD. nia.
    + rewrite !size_app, !size_object_repr, size_string_data.
      change (sizeof size_t_type) with 8. lia.
Qed.

Lemma string_frame_layout_witness :
  take_n (size [9]) (serialize_string (uint 2) [104; 105] [9]) = [9]
  /\ size (serialize_string (uint 2) [104; 105] [9]) = size [9] + 8 + (size [104; 105] + 1) * sizeof (uint 2)
  /\ fst (deserialize size_t_type
            (source_at (serialize_string (uint 2) [104; 105] [9]) (size [9])))
     = Ok (size [104; 105] + 1).
Proof.
  apply (string_frame_layout (uint 2) [104; 105] [9]).
  - cbn. lia.
  - unfold SIZE_MOD. cbn. lia.
Defined.

(** Deserializing a string at the place where it was serialized, with more
    data behind it. *)
Lemma deserialize_string_stored_before (TChar : IntType) (str : list Z)
  (target post : list uint8_t) :
  (1 <= width TChar)%nat ->
  Forall (fun u => in_range TChar u /\ u <> 0) str ->
  size target + 8 + (size str + 1) * sizeof TChar + size post < SIZE_MOD ->
  deserialize_string TChar
    (source_at (serialize_string TChar str target ++ post) (size target))
  = (Ok str, source_at (serialize_string TChar str target ++ post)
                       (size target + 8 + (size str + 1))).
Proof.
  intros Hw Hall Hs.
  pose proof (size_nonneg str) as Hstr. pose proof (size_nonneg target) as Htg.
  pose proof (size_nonneg post) as Hpost.
  assert (Hw' : 1 <= sizeof TChar) by (unfold sizeof; lia).
  rewrite serialize_string_app by nia. rewrite <- !app_assoc.
  apply deserialize_string_frame; try assumption.
  - rewrite !size_app, size_string_data, size_object_repr. nia.
  - rewrite !size_app, size_string_data, size_object_repr. nia.
Qed.

(** X2.  Deserializing a serialized string, whatever its units, moves the
    position on by the declared length counted in bytes: it stands at the
    end of the frame exactly for character types of one byte, and inside
    the frame for wider ones. *)
Theorem string_position_after_deserialize (TChar : IntType) (str : list Z)
  (target : list uint8_t) :
  (1 <= width TChar)%nat ->
  size target + 8 + (size str + 1) * sizeof TChar < SIZE_MOD ->
  let frame := serialize_string TChar str target in
  let after := snd (deserialize_string TChar (source_at frame (size target))) in
  pos_ after = size target + 8 + (size str + 1)
  /\ (pos_ after = size frame <-> width TChar = 1%nat)
  /\ size frame - pos_ after = (size str + 1) * (sizeof TChar - 1).
Proof.
  intros Hw Hs frame after.
  pose proof (size_nonneg str) as Hstr.
  pose proof (size_serialize_string TChar str target Hw Hs) as Hsize.
  fold frame in Hsize.
  assert (Hpos : pos_ after = size target + 8 + (size str + 1)).
  { unfold after, frame. now rewrite deserialize_string_position. }
  split; [exact Hpos|]. rewrite Hpos, Hsize. unfold sizeof. split; [split|].
  - intros Heq. nia.
  - intros ->. lia.
  - lia.
Qed.

Lemma string_position_after_deserialize_witness :
  pos_ (snd (deserialize_string (uint 2)
               (source_at (serialize_string (uint 2) [104; 0; 105] []) 0)))
  = 0 + 8 + (size [104; 0; 105] + 1).
Proof.
  apply (string_position_after_deserialize (uint 2) [104; 0; 105] []).
  - cbn. lia.
  - unfold SIZE_MOD. cbn. lia.
Defined.

(** X3.  Fields compose for one-byte characters: a string and then a primitive
    value, serialized one after the other, are read back in the same order,
    and the source ends at the end of the buffer. *)
Theorem string_then_value_read_back (T TChar : IntType) (v : Z) (str : list Z)
  (target : list uint8_t) :
  width TChar = 1%nat -> (1 <= width T)%nat -> in_range T v ->
  Forall (fun u => in_range TChar u /\ u <> 0) str ->
  size target + 8 + (size str + 1) + sizeof T < SIZE_MOD ->
  let buffer := serialize T v (serialize_string TChar str target) in
  let first := deserialize_string TChar (source_at buffer (size target)) in
  let second := deserialize T (snd first) in
  fst first = Ok str /\ fst second = Ok v /\ pos_ (snd second) = size buffer.
Proof.
  intros HC HT Hv Hall Hs buffer first second.
  assert (Hw : sizeof TChar = 1) by (unfold sizeof; rewrite HC; reflexivity).
  pose proof (size_nonneg str) as Hstr. pose proof (size_nonneg target) as Htg.
  assert (HsT : 0 <= sizeof T) by (unfold sizeof; lia).
  assert (Hframe : size (serialize_string TChar str target)
                   = size target + 8 + (size str + 1)).
  { rewrite size_serialize_string by (lia || nia). rewrite Hw. lia. }
  assert (Hfirst : first
                   = (Ok str, source_at buffer (size (serialize_string TChar str target)))).
  { unfold first, buffer. rewrite serialize_app.
    rewrite deserialize_string_stored_before; [|lia|assumption|].
    - now rewrite Hframe.
    - rewrite size_object_repr, Hw. lia. }
  rewrite Hfirst. cbn [fst snd]. split; [reflexivity|].
  unfold second. rewrite Hfirst. cbn [snd]. unfold buffer.
  rewrite serialize_app, <- (app_nil_r (object_repr T v)).
  rewrite deserialize_stored; [|assumption|assumption|].
  - cbn [fst snd source_at pos_]. split; [reflexivity|].
    rewrite size_app, app_nil_r, size_object_repr. reflexivity.
  - rewrite app_nil_r, size_app, size_object_repr. lia.
Qed.

Lemma string_then_value_read_back_witness :
  fst (deserialize (uint 4)
         (snd (deserialize_string (sint 1)
                 (source_at (serialize (uint 4) 7
                               (serialize_string (sint 1) [104; 105] [])) 0))))
  = Ok 7.
Proof.
  apply (string_then_value_read_back (uint 4) (sint 1) 7 [104; 105] []).
  - reflexivity.
  - cbn. lia.
  - unfold in_range. cbn. lia.
  - repeat constructor; unfold in_range; cbn; lia.
  - unfold SIZE_MOD. cbn. lia.
Defined.

End CodecFrames.

(** ** Codec: frames that were not written by [serialize] *)

Section CodecHostileInput.
Import Codec.

Lemma load_size_t_at (buf : list uint8_t) (pos : Z) :
  0 <= pos -> pos + 8 <= size buf -> size buf < SIZE_MOD ->
  deserialize size_t_type (source_at buf pos)
  = (Ok (le_value (take_n 8 (drop_n pos buf))), source_at buf (pos + 8)).
Proof.
  intros Hp Hle Hs. unfold deserialize. change (sizeof size_t_type) with 8.
  rewrite Take_enough; unfold source_at; cbn [buffer_ pos_].
  - unfold load. change (sizeof size_t_type) with 8.
    destruct (Z.leb_spec 0 pos); [|lia].
    destruct (Z.leb_spec (pos + 8) (size buf)); [|lia]. reflexivity.
  - unfold position_ok. cbn [buffer_ pos_]. lia.
  - lia.
Qed.

(** X4.  A frame whose length field is zero makes [deserialize] build the string
    from the null pointer that [Take(0)] returns. *)
Theorem zero_length_field_dereferences_null (TChar : IntType)
  (buf : list uint8_t) (pos : Z) :
  0 <= pos -> pos + 8 <= size buf -> size buf < SIZE_MOD ->
  take_n 8 (drop_n pos buf) = repeat 0 8 ->
  deserialize_string TChar (source_at buf pos)
  = (Undefined NullDeref, source_at buf (pos + 8)).
Proof.
  intros Hp Hle Hs Hz. unfold deserialize_string.
  rewrite load_size_t_at by assumption. rewrite Hz. reflexivity.
Qed.

Lemma zero_length_field_dereferences_null_witness :
  deserialize_string (sint 1) (source_at (repeat 0 8 ++ [65; 0]) 0)
  = (Undefined NullDeref, source_at (repeat 0 8 ++ [65; 0]) (0 + 8)).
Proof.
  apply (zero_length_field_dereferences_null (sint 1) (repeat 0 8 ++ [65; 0]) 0).
  - lia.
  - cbn. lia.
  - unfold SIZE_MOD. cbn. lia.
  - reflexivity.
Defined.

Lemma c_str_units_without_zero (TChar : IntType) (mem : list uint8_t) :
  width TChar = 1%nat ->
  Forall (fun b => 1 <= b <= 255) mem ->
  forall fuel, c_str_units TChar fuel mem = Undefined OutOfBounds.
Proof.
  intros Hw Hall. assert (Hs : sizeof TChar = 1) by (unfold sizeof; now rewrite Hw).
  induction Hall as [|b mem Hb _ IH]; intros [|fuel]; try reflexivity.
  - cbn [c_str_units]. rewrite Hs. reflexivity.
  - cbn [c_str_units]. rewrite Hs.
    change (take_n 1 (b :: mem)) with [b].
    change (drop_n 1 (b :: mem)) with mem.
    assert (Hu : object_value TChar [b] <> 0).
    { unfold object_value, bits. rewrite Hw. cbn [le_value].
      change (2 ^ (8 * Z.of_nat 1 - 1)) with 128.
      change (2 ^ (8 * Z.of_nat 1)) with 256.
      destruct (is_signed TChar); cbn [andb]; [|lia].
      destruct (Z.leb_spec 128 (b + 256 * 0)); lia. }
    destruct (Z.eqb_spec (object_value TChar [b]) 0); [contradiction|].
    match goal with
    | |- context [?a <? ?c] => destruct (Z.ltb_spec a c); [reflexivity|]
    end.
    now rewrite IH.
Qed.

(** X5.  The bounds check of [Take] does not bound the string constructor: when
    no byte from the start of the characters to the end of the buffer is
    zero, deserializing a string of one-byte characters reads past the end
    of the buffer, although the declared length fits. *)
Theorem unterminated_string_reads_past_the_buffer (TChar : IntType)
  (pre body : list uint8_t) (declared : Z) :
  width TChar = 1%nat ->
  Forall (fun b => 1 <= b <= 255) body ->
  1 <= declared <= size body ->
  size pre + 8 + size body < SIZE_MOD ->
  deserialize_string TChar
    (source_at (pre ++ object_repr size_t_type declared ++ body) (size pre))
  = (Undefined OutOfBounds,
     source_at (pre ++ object_repr size_t_type declared ++ body)
               (size pre + 8 + declared)).
Proof.
  intros Hw Hall Hd Hs.
  pose proof (size_nonneg pre) as Hpre.
  unfold deserialize_string. rewrite deserialize_stored.
  - change (sizeof size_t_type) with 8.
    rewrite Take_enough; unfold source_at; cbn [buffer_ pos_].
    + unfold string_from_pointer.
      rewrite !size_app, size_object_repr. change (sizeof size_t_type) with 8.
      destruct (Z.leb_spec 0 (size pre + 8)); [|lia].
      destruct (Z.leb_spec (size pre + 8) (size pre + (8 + size body))); [|lia].
      cbn [andb].
      replace (size pre + 8)
        with (size (pre ++ object_repr size_t_type declared))
        by (rewrite size_app, size_object_repr; reflexivity).
      rewrite app_assoc, drop_n_app_exact.
      now rewrite c_str_units_without_zero.
    + unfold position_ok. cbn [buffer_ pos_].
      rewrite !size_app, size_object_repr. change (sizeof size_t_type) with 8. lia.
    + rewrite !size_app, size_object_repr. change (sizeof size_t_type) with 8. lia.
  - cbn. lia.
  - unfold in_range. cbn [is_signed size_t_type uint].
    change (2 ^ bits size_t_type) with SIZE_MOD. lia.
  - rewrite !size_app, size_object_repr. change (sizeof size_t_type) with 8. lia.
Qed.

Lemma unterminated_string_reads_past_the_buffer_witness :
  deserialize_string (sint 1)
    (source_at ([] ++ object_repr size_t_type 2 ++ [104; 105]) (size (@nil Z)))
  = (Undefined OutOfBounds,
     source_at ([] ++ object_repr size_t_type 2 ++ [104; 105])
               (size (@nil Z) + 8 + 2)).
Proof.
  apply (unterminated_string_reads_past_the_buffer (sint 1) [] [104; 105] 2).
  - reflexivity.
  - repeat constructor; lia.
  - cbn. lia.
  - unfold SIZE_MOD. cbn. lia.
Defined.

(** A frame of two-byte characters whose length field fits the bytes that
    remain while its units do not: three units are declared, four bytes
    follow the field, [Take] grants the three bytes it is asked for, and
    the string is read past the end of the buffer. *)
Example wide_string_frame_scenario :
  deserialize_string (uint 2)
    (source_at (object_repr size_t_type 3 ++ [104; 0; 105; 0]) 0)
  = (Undefined OutOfBounds,
     source_at (object_repr size_t_type 3 ++ [104; 0; 105; 0]) 11).
Proof. vm_compute. reflexivity. Qed.

(** X6.  A source built with a position beyond the end of its vector: the
    subtraction in [Take] wraps, so the request is granted and the pointer
    returned lies outside the vector. *)
Theorem Take_past_the_end_is_granted (s : Source) (n : size_t) :
  size (buffer_ s) < pos_ s < SIZE_MOD ->
  0 < n <= SIZE_MOD - (pos_ s - size (buffer_ s)) ->
  remaining s = SIZE_MOD - (pos_ s - size (buffer_ s))
  /\ fst (Take s n) = Ok (data_plus (pos_ s))
  /\ size (buffer_ s) < pos_ s.
Proof.
  intros Hp Hn. pose proof (size_nonneg (buffer_ s)) as Hs.
  assert (Hr : remaining s = SIZE_MOD - (pos_ s - size (buffer_ s))).
  { unfold remaining, size_sub, to_size_t. symmetry.
    apply Z.mod_unique with (q := -1); lia. }
  split; [exact Hr|]. split; [|lia].
  unfold Take. fold (remaining s). rewrite Hr.
  destruct (Z.eqb_spec n 0); [lia|].
  destruct (Z.gtb_spec n (SIZE_MOD - (pos_ s - size (buffer_ s)))); [lia|].
  reflexivity.
Qed.

Lemma Take_past_the_end_is_granted_witness :
  fst (Take (source_at [1; 2; 3] 5) 4) = Ok (data_plus 5).
Proof.
  apply (Take_past_the_end_is_granted (source_at [1; 2; 3] 5) 4).
  - unfold SIZE_MOD. cbn. lia.
  - unfold SIZE_MOD. cbn. lia.
Defined.

End CodecHostileInput.

(** ** Server side: the lifetime of a connection *)

Ltac outcome_of H :=
  match type of H with
  | Some ?r = Some (?o, _) =>
      let Heq := fresh in
      let Ho := fresh in
      assert (Ho : o = fst r) by (injection H as Heq; rewrite Heq; reflexivity);
      rewrite Ho; clear Ho H
  end.

Section Lifetime.
Import Server.

Variables N M : size_t.
Variable NDEBUG : bool.
Variable os : Os.

Lemma Disconnect_on_live_pipe (w : World) (p : CrPipe) :
  self w = Some p -> fst (Disconnect os w) <> UseAfterDelete.
Proof.
  intros Hs. unfold Disconnect, with_this. rewrite Hs.
  destruct (DisconnectNamedPipe_fails os _); [discriminate|].
  unfold delete_this, with_this. cbn [log self]. rewrite Hs. discriminate.
Qed.

Lemma ListenForData_on_live_pipe (w : World) (p : CrPipe) :
  self w = Some p -> fst (ListenForData N os w) <> UseAfterDelete.
Proof.
  intros Hs. unfold ListenForData, with_this. rewrite Hs.
  destruct (negb (isConnected_ p)); [discriminate|].
  destruct (ReadFileEx_fails os _); [|discriminate].
  now apply Disconnect_on_live_pipe with (p := p).
Qed.

Lemma SendData_on_live_pipe (w : World) (p : CrPipe)
  (data : list uint8_t) (dataSize : size_t) :
  self w = Some p -> fst (SendData M NDEBUG os data dataSize w) <> UseAfterDelete.
Proof.
  intros Hs. unfold SendData, with_this, assert. rewrite Hs.
  destruct (negb (isConnected_ p)); [discriminate|].
  destruct (NDEBUG || (dataSize <=? M)); [|discriminate].
  destruct (WriteFileEx_fails os _); [|discriminate].
  eapply Disconnect_on_live_pipe. reflexivity.
Qed.

Lemma notify_on_live_pipe (respond : list uint8_t -> Reply) (n : Notification)
  (w : World) (p : CrPipe) :
  self w = Some p ->
  fst (notify (observer N M NDEBUG os respond) n w) <> UseAfterDelete.
Proof.
  intros Hs. unfold notify.
  destruct n; cbn [observer OnPipeConnected OnDataReceived
                     OnPartialDataReceived OnDataSent].
  - now apply ListenForData_on_live_pipe with (p := p).
  - destruct (respond _).
    + discriminate.
    + now apply SendData_on_live_pipe with (p := p).
    + now apply ListenForData_on_live_pipe with (p := p).
  - now apply ListenForData_on_live_pipe with (p := p).
  - now apply ListenForData_on_live_pipe with (p := p).
Qed.

Lemma step_on_live_pipe (respond : list uint8_t -> Reply) (ev : Step)
  (w w' : World) (o : Outcome) :
  single_flight w ->
  step NDEBUG os (observer N M NDEBUG os respond) ev w = Some (o, w') ->
  o <> UseAfterDelete.
Proof.
  intros (Hlen & Hpk & Hconn) Hstep.
  destruct ev as [st|err data more|err nw]; cbn [step] in Hstep.
  - destruct (self w) as [p|] eqn:Hs; [|discriminate].
    destruct (isConnected_ p); [discriminate|].
    outcome_of Hstep.
    unfold OnConnected, with_this, assert. cbn [set_self self].
    destruct (isConnectionPending_ _); cbn [isConnectionPending_].
    + destruct (GetOverlappedResult _ _) as [res e].
      destruct (NDEBUG || res); [|discriminate].
      eapply notify_on_live_pipe. reflexivity.
    + eapply notify_on_live_pipe. reflexivity.
  - destruct (take_read (in_flight w)) as [[n rest]|] eqn:Ht; [|discriminate].
    destruct (size data <=? n); [|discriminate].
    destruct Hconn as (p & Hs & _).
    { intros Hnil. rewrite Hnil in Ht. discriminate. }
    outcome_of Hstep.
    unfold ReadCompleted, OnReadCompleted, with_this, assert, retire.
    rewrite Hs. cbn [self info_ self_set].
    destruct (self_set (info_ p)); rewrite ?orb_true_r, ?orb_false_r.
    + destruct (negb (err =? ERROR_SUCCESS)).
      * eapply Disconnect_on_live_pipe. reflexivity.
      * destruct (GetOverlappedResult _ _) as [res e].
        destruct (_ =? ERROR_MORE_DATA); eapply notify_on_live_pipe; reflexivity.
    + destruct NDEBUG; discriminate.
  - destruct (take_write (in_flight w)) as [[b rest]|] eqn:Ht; [|discriminate].
    destruct Hconn as (p & Hs & _).
    { intros Hnil. rewrite Hnil in Ht. discriminate. }
    outcome_of Hstep.
    unfold WriteCompleted, OnWriteCompleted, with_this, assert, retire.
    rewrite Hs. cbn [self info_ self_set].
    destruct (self_set (info_ p)); rewrite ?orb_true_r, ?orb_false_r.
    + destruct (negb (err =? ERROR_SUCCESS)).
      * eapply Disconnect_on_live_pipe. reflexivity.
      * eapply notify_on_live_pipe. reflexivity.
    + destruct NDEBUG; discriminate.
Qed.

Lemma reachable_single_flight (w : World) :
  reachable N M NDEBUG w -> single_flight w.
Proof.
  induction 1 as [w ((p & Hs & Hc) & Hi & Hp)|w w' os' respond ev o _ IH Hstep].
  - unfold single_flight. rewrite Hi, Hp. cbn. repeat split; auto; congruence.
  - eapply step_single; eassumption.
Qed.

(** X7.  No step of a connection touches the pipe after it has deleted itself:
    whatever happens to a reachable connection, the call into it does not
    end in a use after delete. *)
Theorem no_use_after_delete (respond : list uint8_t -> Reply) (ev : Step)
  (w w' : World) (o : Outcome) :
  reachable N M NDEBUG w ->
  step NDEBUG os (observer N M NDEBUG os respond) ev w = Some (o, w') ->
  o <> UseAfterDelete.
Proof.
  intros Hr Hstep. apply reachable_single_flight in Hr.
  eapply step_on_live_pipe; eassumption.
Qed.

(** X8.  In every state a connection reaches through client reports and
    completions (default wiring, [OnDataReceived] making at most one call
    into the pipe), a connection that has deleted itself has no operation
    in flight, so that no read and no write completion is left to be
    delivered to it, whatever the observer. *)
Theorem deleted_connection_is_inert (callbacks_ : CrPipeCallbacks) (w : World) :
  reachable N M NDEBUG w -> self w = None ->
  in_flight w = []
  /\ (forall err data more,
        step NDEBUG os callbacks_ (ReadCompletes err data more) w = None)
  /\ (forall err numBytesWritten,
        step NDEBUG os callbacks_ (WriteCompletes err numBytesWritten) w = None).
Proof.
  intros Hr Hs. apply reachable_single_flight in Hr.
  destruct Hr as (_ & _ & Hconn).
  assert (Hi : in_flight w = []).
  { destruct (in_flight w) eqn:Hi; [reflexivity|exfalso].
    destruct Hconn as (p & Hp & _); [discriminate|congruence]. }
  split; [exact Hi|].
  split; intros; cbn [step]; rewrite Hi; reflexivity.
Qed.

End Lifetime.

(** ** Server side: calls and their failures *)

Section Calls.
Import Server.

Variables N M : size_t.
Variable NDEBUG : bool.
Variable os : Os.

(** X9.  [SendData] stays inside the write buffer: whatever the size asked for,
    the build and the answers of the system, a pipe that survives the call
    has a write buffer of [M] bytes and its read buffer, handle and
    connected flag as before. *)
Theorem SendData_stays_inside_write_buffer
  (w : World) (p p' : CrPipe) (data : list uint8_t) (dataSize : size_t) :
  self w = Some p -> size (writeBuffer_ p) = M ->
  0 <= dataSize -> Z.min dataSize M <= size data ->
  self (snd (SendData M NDEBUG os data dataSize w)) = Some p' ->
  size (writeBuffer_ p') = M
  /\ readBuffer_ p' = readBuffer_ p
  /\ pipeHandle_ p' = pipeHandle_ p
  /\ isConnected_ p' = isConnected_ p.
Proof.
  intros Hs HM Hd Hdata. pose proof (size_nonneg (writeBuffer_ p)) as Hwb.
  assert (Hsize : size (take_n (Z.min dataSize M) data
                        ++ drop_n (Z.min dataSize M) (writeBuffer_ p)) = M).
  { rewrite size_app, size_take_n, size_drop_n by lia. lia. }
  unfold SendData, with_this, assert. rewrite Hs.
  destruct (negb (isConnected_ p)).
  { cbn [snd]. rewrite Hs. intros H. inversion H. subst. auto. }
  destruct (NDEBUG || (dataSize <=? M)).
  2:{ cbn [snd]. rewrite Hs. intros H. inversion H. subst. auto. }
  destruct (WriteFileEx_fails os _).
  - unfold Disconnect, with_this. cbn [SetLastError request set_self self].
    destruct (DisconnectNamedPipe_fails os _).
    + cbn [snd SetLastError log self]. intros H. inversion H. subst. cbn. auto.
    + unfold delete_this, with_this. cbn [log self snd set_self]. discriminate.
  - cbn [snd accept request set_self self]. intros H. inversion H. subst. cbn. auto.
Qed.

(** X10.  A read the system rejects leaves nothing in flight: [ListenForData]
    then either returns with the connection deleted, or throws the error of
    [DisconnectNamedPipe] with the connection still there. *)
Theorem rejected_read_disconnects (w : World) (p : CrPipe) (e : DWORD) :
  self w = Some p -> isConnected_ p = true ->
  ReadFileEx_fails os (request (CallReadFileEx (pipeHandle_ p) (to_DWORD N)) w)
  = Some e ->
  let r := ListenForData N os w in
  in_flight (snd r) = in_flight w
  /\ (fst r = Returned -> self (snd r) = None)
  /\ (forall err, fst r = Threw err ->
        self (snd r) = Some p
        /\ exists e', err = ErrorCode "Win API DisconnectNamedPipe failed." e')
  /\ (fst r = Returned \/ exists err, fst r = Threw err).
Proof.
  intros Hs Hc Hrej r. subst r. unfold ListenForData, with_this.
  rewrite Hs, Hc. cbn [negb]. rewrite Hrej.
  unfold Disconnect, with_this. cbn [SetLastError request self].
  rewrite Hs.
  destruct (DisconnectNamedPipe_fails os _) as [e'|].
  - cbn. split; [reflexivity|]. split; [discriminate|]. split.
    + intros err H. inversion H. eauto.
    + right. eauto.
  - unfold delete_this, with_this. cbn [log self SetLastError request].
    rewrite Hs.
    destruct (Handle_bool (pipeHandle_ p)); cbn;
      (split; [reflexivity|]; split; [reflexivity|]; split;
       [discriminate|now left]).
Qed.

End Calls.

(** ** Server side: from creation to listening *)

Section Connecting.
Import Server.

Variables N M : size_t.
Variable NDEBUG : bool.
Variable os : Os.

(** X11.  [Connect] returns only with a pipe that waits for its client: created
    with a usable handle, tied to the connected event, not connected, with
    nothing in flight, and either with the connect pending (and marked so)
    or with the client already there and the connected event signalled. *)
Theorem Connect_returns_waiting_for_a_client
  (name : string) (connectedEvent : HANDLE) (w w' : World) (p : CrPipe) :
  self w = Some p ->
  Connect N os name connectedEvent w = (Returned, w') ->
  exists p',
    self w' = Some p'
    /\ pipeHandle_ p' <> INVALID_HANDLE_VALUE
    /\ state_hEvent (info_ p') = connectedEvent
    /\ self_set (info_ p') = true
    /\ isConnected_ p' = isConnected_ p
    /\ readBuffer_ p' = readBuffer_ p /\ writeBuffer_ p' = writeBuffer_ p
    /\ in_flight w' = in_flight w
    /\ ((last_error w' = ERROR_IO_PENDING
         /\ isConnectionPending_ p' = true
         /\ trace w' = trace w
                       ++ [CallCreateNamedPipeA name (to_DWORD N) (to_DWORD N);
                           CallConnectNamedPipe (pipeHandle_ p')])
        \/ (last_error w' = ERROR_PIPE_CONNECTED
            /\ isConnectionPending_ p' = isConnectionPending_ p
            /\ trace w' = trace w
                          ++ [CallCreateNamedPipeA name (to_DWORD N) (to_DWORD N);
                              CallConnectNamedPipe (pipeHandle_ p');
                              CallSetEvent connectedEvent])).
Proof.
  intros Hs. unfold Connect, with_this. rewrite Hs.
  destruct (CreateNamedPipeA_reply os name _) as [h e1].
  destruct (Z.eqb_spec h INVALID_HANDLE_VALUE) as [|Hh]; [discriminate|].
  match goal with |- context [ConnectNamedPipe_error os ?x] =>
    set (e2 := ConnectNamedPipe_error os x) end.
  destruct (Z.eqb_spec e2 ERROR_IO_PENDING) as [He2|_].
  { intros H. inversion H. subst w'. eexists. split; [reflexivity|].
    cbn [pipeHandle_ info_ state_hEvent self_set isConnected_ readBuffer_
         writeBuffer_ isConnectionPending_].
    repeat (split; [solve [auto]|]). left.
    cbn [last_error set_self SetLastError log trace]. rewrite <- app_assoc.
    auto. }
  destruct (Z.eqb_spec e2 ERROR_PIPE_CONNECTED) as [He2|_]; [|discriminate].
  destruct (SetEvent_fails os _); [discriminate|].
  intros H. inversion H. subst w'. eexists. split; [reflexivity|].
  cbn [pipeHandle_ info_ state_hEvent self_set isConnected_ readBuffer_
       writeBuffer_ isConnectionPending_ PipeInfo_Set].
  repeat (split; [solve [auto]|]). right.
  cbn [last_error set_self SetLastError log trace]. rewrite <- !app_assoc.
  auto.
Qed.

(** X12.  An error of [Connect] names the call that failed: the last call to
    the system in the trace is the call named in the text of the error, the
    system made that call fail, and the code of the error is the last error
    that call left.  The pipe keeps the handle it was given, which is the
    invalid handle exactly when the creation failed, and nothing is in
    flight that was not before. *)
Theorem Connect_fails_with_the_call_that_failed
  (name : string) (connectedEvent : HANDLE) (w w' : World) (p : CrPipe)
  (err : Error) :
  self w = Some p ->
  Connect N os name connectedEvent w = (Threw err, w') ->
  exists (p' : CrPipe) (e : DWORD),
    self w' = Some p' /\ last_error w' = e /\ in_flight w' = in_flight w
    /\ isConnected_ p' = isConnected_ p
    /\ let created := CallCreateNamedPipeA name (to_DWORD N) (to_DWORD N) in
       let connected := CallConnectNamedPipe (pipeHandle_ p') in
       (err = ErrorCode "Win API CreateNamedPipe failed." e
        /\ pipeHandle_ p' = INVALID_HANDLE_VALUE
        /\ trace w' = trace w ++ [created]
        /\ exists w0, CreateNamedPipeA_reply os name w0
                      = (INVALID_HANDLE_VALUE, e))
       \/ (err = ErrorCode "Win API ConnectNamedPipe failed." e
           /\ pipeHandle_ p' <> INVALID_HANDLE_VALUE
           /\ trace w' = trace w ++ [created; connected]
           /\ e <> ERROR_IO_PENDING /\ e <> ERROR_PIPE_CONNECTED
           /\ exists w0, ConnectNamedPipe_error os w0 = e)
       \/ (err = ErrorCode "Win API SetEvent failed." e
           /\ pipeHandle_ p' <> INVALID_HANDLE_VALUE
           /\ trace w' = trace w ++ [created; connected;
                                     CallSetEvent connectedEvent]
           /\ exists w0, SetEvent_fails os w0 = Some e).
Proof.
  intros Hs. unfold Connect, with_this. rewrite Hs.
  destruct (CreateNamedPipeA_reply os name _) as [h e1] eqn:Hcreate.
  destruct (Z.eqb_spec h INVALID_HANDLE_VALUE) as [Hh|Hh].
  { intros H. inversion H. subst. eexists. exists e1.
    cbn [self last_error in_flight isConnected_ pipeHandle_ trace
         SetLastError set_self log].
    repeat (split; [reflexivity|]). left.
    repeat (split; [reflexivity|]). eauto. }
  match goal with |- context [ConnectNamedPipe_error os ?x] =>
    set (e2 := ConnectNamedPipe_error os x) end.
  destruct (Z.eqb_spec e2 ERROR_IO_PENDING) as [|Hpending]; [discriminate|].
  destruct (Z.eqb_spec e2 ERROR_PIPE_CONNECTED) as [|Hconnected].
  - match goal with |- context [SetEvent_fails os ?x] =>
      destruct (SetEvent_fails os x) as [e3|] eqn:Hset end; [|discriminate].
    intros H. inversion H. subst err w'. eexists. exists e3.
    cbn [self last_error in_flight isConnected_ pipeHandle_ trace
         SetLastError set_self log].
    repeat (split; [reflexivity|]). right. right.
    split; [reflexivity|]. split; [exact Hh|].
    split; [now rewrite <- ?app_assoc|]. eauto.
  - intros H. inversion H. subst err w'. eexists. exists e2.
    cbn [self last_error in_flight isConnected_ pipeHandle_ trace
         SetLastError set_self log].
    repeat (split; [reflexivity|]). right. left.
    split; [reflexivity|]. split; [exact Hh|].
    split; [now rewrite <- ?app_assoc|].
    split; [exact Hpending|]. split; [exact Hconnected|].
    eexists. reflexivity.
Qed.

Hypothesis N_fits : 0 < N < DWORD_MOD.
Hypothesis reads_accepted : forall w, ReadFileEx_fails os w = None.

(** What [Connect] leaves of the pipe when it returns. *)
Lemma Connect_returned_pipe
  (name : string) (connectedEvent : HANDLE) (w w' : World) (p : CrPipe) :
  self w = Some p ->
  Connect N os name connectedEvent w = (Returned, w') ->
  exists p',
    self w' = Some p'
    /\ self_set (info_ p') = true
    /\ isConnected_ p' = isConnected_ p
    /\ readBuffer_ p' = readBuffer_ p
    /\ in_flight w' = in_flight w /\ peak w' = peak w
    /\ notifications (trace w') = notifications (trace w).
Proof.
  intros Hs. unfold Connect, with_this. rewrite Hs.
  destruct (CreateNamedPipeA_reply os name _) as [h e1].
  destruct (h =? INVALID_HANDLE_VALUE); [discriminate|].
  destruct (_ =? ERROR_IO_PENDING).
  { intros H. inversion H. subst w'. eexists. split; [reflexivity|].
    cbn [info_ self_set isConnected_ readBuffer_ in_flight peak trace
         set_self SetLastError log].
    rewrite !notifications_app. cbn [notifications]. rewrite !app_nil_r.
    repeat split; reflexivity. }
  destruct (_ =? ERROR_PIPE_CONNECTED); [|discriminate].
  destruct (SetEvent_fails os _); [discriminate|].
  intros H. inversion H. subst w'. eexists. split; [reflexivity|].
  cbn [info_ self_set isConnected_ readBuffer_ in_flight peak trace
       set_self SetLastError log PipeInfo_Set].
  rewrite !notifications_app. cbn [notifications]. rewrite !app_nil_r.
    repeat split; reflexivity.
Qed.

(** X13.  From creation to listening: on a new pipe on which [Connect] returned,
    the report of the client makes the default observer issue the first
    read, and the pipe listens with exactly that one operation asked for. *)
Theorem accepted_client_is_listened_to
  (name : string) (connectedEvent : HANDLE)
  (readBuffer writeBuffer : list uint8_t) (e0 : DWORD) (w1 : World) :
  size readBuffer = N ->
  Connect N os name connectedEvent
    (mkWorld (Some (new_CrPipe readBuffer writeBuffer)) e0 [] O [])
  = (Returned, w1) ->
  exists w2,
    step NDEBUG os (default_callbacks N os) (ClientConnected StatusSuccess) w1
    = Some (Returned, w2)
    /\ listening N w2
    /\ notifications (trace w2) = [PipeConnected]
    /\ peak w2 = 1%nat.
Proof.
  intros Hrb HC.
  destruct (Connect_returned_pipe name connectedEvent
              (mkWorld (Some (new_CrPipe readBuffer writeBuffer)) e0 [] O [])
              w1 (new_CrPipe readBuffer writeBuffer) eq_refl HC)
    as (p' & Hs & Hset & Hconn & Hrb' & Hfl & Hpk & Hnotes).
  cbn [in_flight peak trace notifications] in Hfl, Hpk, Hnotes.
  clear HC.
  destruct w1 as [s le fl pk tr]. cbn in Hs, Hfl, Hpk, Hnotes. subst s fl pk.
  destruct p' as [[st hev sset] h rb wb pend conn].
  cbn in Hset, Hconn, Hrb'. subst sset conn rb.
  assert (HN : to_DWORD N = N) by (unfold to_DWORD; apply Z.mod_small; lia).
  cbn [step self isConnected_].
  unfold OnConnected, with_this, assert. cbn [set_self self isConnectionPending_].
  destruct pend.
  - cbn -[Z.eqb]. rewrite orb_true_r.
    unfold notify. cbn [default_callbacks OnPipeConnected].
    unfold ListenForData, with_this. cbn -[Z.eqb].
    rewrite reads_accepted, HN.
    eexists. split; [reflexivity|]. split.
    + eexists. repeat split. exact Hrb.
    + unfold accept, request, log, SetLastError, set_self. cbn [trace peak].
      rewrite !notifications_app, Hnotes. cbn. auto.
  - unfold notify. cbn [default_callbacks OnPipeConnected].
    unfold ListenForData, with_this. cbn -[Z.eqb].
    rewrite reads_accepted, HN.
    eexists. split; [reflexivity|]. split.
    + eexists. repeat split. exact Hrb.
    + unfold accept, request, log, SetLastError, set_self. cbn [trace peak].
      rewrite !notifications_app, Hnotes. cbn. auto.
Qed.

(** X14.  [OnConnected] on a pipe whose connect is still pending: with [assert]
    compiled in it stops at the assertion and the pipe stays unconnected;
    with [assert] compiled out it marks the pipe connected all the same and
    notifies the observer, whose default starts a read. *)
Theorem OnConnected_without_a_client
  (callbacks_ : CrPipeCallbacks) (w : World) (p : CrPipe) :
  self w = Some p -> isConnectionPending_ p = true ->
  state_status (info_ p) = StatusPending ->
  let probed := SetLastError ERROR_IO_INCOMPLETE
                  (log (CallGetOverlappedResult (pipeHandle_ p)) w) in
  OnConnected false callbacks_ w = (AssertionFailed "res", probed)
  /\ OnConnected true callbacks_ w
     = notify callbacks_ PipeConnected
         (set_self (Some (mkPipe (info_ p) (pipeHandle_ p) (readBuffer_ p)
                            (writeBuffer_ p) false true)) probed)
  /\ (self_set (info_ p) = true -> size (readBuffer_ p) = N ->
      in_flight w = [] ->
      fst (OnConnected true (default_callbacks N os) w) = Returned
      /\ listening N (snd (OnConnected true (default_callbacks N os) w))).
Proof.
  intros Hs Hp Hst probed. unfold OnConnected, with_this, assert.
  rewrite Hs, Hp, Hst. cbn [GetOverlappedResult orb].
  split; [reflexivity|]. split; [reflexivity|].
  intros Hset Hrb Hfl.
  assert (HN : to_DWORD N = N) by (unfold to_DWORD; apply Z.mod_small; lia).
  unfold notify. cbn [default_callbacks OnPipeConnected].
  unfold ListenForData, with_this. cbn -[Z.eqb].
  rewrite reads_accepted, HN. cbn [fst snd]. split; [reflexivity|].
  eexists. repeat split; cbn; auto. now rewrite Hfl.
Qed.

End Connecting.

(** ** Server side: a request and its reply *)

Section Cycle.
Import Server.

Variables N M : size_t.
Variable NDEBUG : bool.
Variable os : Os.
Hypothesis N_fits : 0 < N < DWORD_MOD.
Hypothesis M_fits : M < DWORD_MOD.
Hypothesis reads_accepted : forall w, ReadFileEx_fails os w = None.
Hypothesis writes_accepted : forall w, WriteFileEx_fails os w = None.

(** X15.  A request and its reply bring the connection back to where it was:
    a listening pipe whose thread holds no stale [ERROR_MORE_DATA] as last
    error receives a complete message, the application answers with one
    [SendData] that fits the write buffer, the write completes, and the
    default [OnDataSent] leaves the pipe listening again, with the observer
    told of the data and then of the send.  The capacities are in [DWORD]
    range and the system accepts the read and the write. *)
Theorem request_reply_cycle (respond : list uint8_t -> Reply) (w : World)
  (msg d : list uint8_t) :
  listening N w -> last_error w <> ERROR_MORE_DATA ->
  size msg <= N -> respond msg = ReplySend d -> size d <= M ->
  exists w1 w2 data,
    step NDEBUG os (observer N M NDEBUG os respond)
      (ReadCompletes ERROR_SUCCESS msg false) w = Some (Returned, w1)
    /\ in_flight w1 = [WriteOp d]
    /\ step NDEBUG os (observer N M NDEBUG os respond)
         (WriteCompletes ERROR_SUCCESS (size d)) w1 = Some (Returned, w2)
    /\ listening N w2
    /\ notifications (trace w2)
       = notifications (trace w) ++ [DataReceived data (size msg); DataSent]
    /\ take_n (size msg) data = msg.
Proof.
  intros (p & Hs & Hc & Hset & Hrb & Hfl) Herr Hle Hresp Hd.
  pose proof (size_nonneg d) as Hd0.
  destruct w as [s le fl pk tr]. cbn in Hs, Hfl, Herr. subst s fl.
  destruct p as [[st hev sset] h rb wb pend conn]. cbn in Hc, Hset, Hrb. subst conn sset.
  cbn [step in_flight take_read].
  destruct (Z.leb_spec (size msg) N); [|lia].
  unfold ReadCompleted, OnReadCompleted, with_this, assert, retire.
  cbn -[Z.eqb take_n drop_n]. rewrite orb_true_r.
  change (negb (ERROR_SUCCESS =? ERROR_SUCCESS)) with false.
  change (completion_status ERROR_SUCCESS false) with StatusSuccess.
  cbn -[Z.eqb take_n drop_n].
  destruct (Z.eqb_spec le ERROR_MORE_DATA); [contradiction|].
  unfold notify. cbn [observer OnDataReceived].
  rewrite take_n_app_exact, Hresp.
  unfold SendData, with_this, assert. cbn -[Z.eqb take_n drop_n Z.min].
  destruct (Z.leb_spec (size d) M); [|lia]. rewrite orb_true_r.
  rewrite Z.min_l by lia. rewrite take_n_all.
  assert (Hdw : to_DWORD (size d) = size d) by (unfold to_DWORD; apply Z.mod_small; lia).
  rewrite Hdw, take_n_app_exact, writes_accepted.
  eexists. eexists. eexists. split; [reflexivity|]. split; [reflexivity|].
  cbn [step in_flight accept take_write].
  unfold WriteCompleted, OnWriteCompleted, with_this, assert, retire.
  cbn -[Z.eqb take_n drop_n]. rewrite orb_true_r.
  change (negb (ERROR_SUCCESS =? ERROR_SUCCESS)) with false.
  cbn -[Z.eqb take_n drop_n].
  unfold ListenForData, with_this. cbn -[Z.eqb take_n drop_n].
  rewrite reads_accepted.
  assert (HN : to_DWORD N = N) by (unfold to_DWORD; apply Z.mod_small; lia).
  rewrite HN.
  split; [reflexivity|]. split.
  { eexists. repeat split. cbn [readBuffer_].
    change (drop_n 0 (msg ++ drop_n (size msg) rb))
      with (msg ++ drop_n (size msg) rb).
    rewrite size_app. unfold drop_n, size in *. rewrite length_skipn. lia. }
  split.
  { unfold accept, request, log, SetLastError, set_self. cbn [trace].
    rewrite !notifications_app. cbn [notifications]. rewrite !app_nil_r.
    rewrite <- !app_assoc. reflexivity. }
  apply take_n_app_exact.
Qed.
End Cycle.

(** ** Server side: the properties above on sample surroundings *)

Lemma no_use_after_delete_witness :
  exists w',
    Server.step false ServerSamples.os_client_gone
      (Server.observer 2 4 false ServerSamples.os_client_gone
         (fun _ => Server.NoReply))
      (Server.ClientConnected StatusSuccess) (Server.sample_world false [])
    = Some (Server.Returned, w')
    /\ Server.Returned <> Server.UseAfterDelete.
Proof.
  eexists. split; [vm_compute; reflexivity|].
  eapply (no_use_after_delete 2 4 false ServerSamples.os_client_gone
            (fun _ => Server.NoReply) (Server.ClientConnected StatusSuccess)
            (Server.sample_world false [])).
  - apply Server.reachable_fresh. unfold Server.fresh_connection. cbn.
    repeat split; eauto.
  - reflexivity.
Defined.

Lemma deleted_connection_is_inert_witness :
  exists w',
    Server.step false ServerSamples.os_client_gone
      (Server.observer 2 4 false ServerSamples.os_client_gone
         (fun _ => Server.NoReply))
      (Server.ClientConnected StatusSuccess) (Server.sample_world false [])
    = Some (Server.Returned, w')
    /\ Server.self w' = None
    /\ Server.in_flight w' = [].
Proof.
  eexists. split; [vm_compute; reflexivity|]. split; [reflexivity|].
  apply (deleted_connection_is_inert 2 4 false Server.os_accepts_all
           (Server.default_callbacks 2 Server.os_accepts_all)).
  - apply (Server.reachable_step 2 4 false (Server.sample_world false []) _
             ServerSamples.os_client_gone (fun _ => Server.NoReply)
             (Server.ClientConnected StatusSuccess) Server.Returned).
    + apply Server.reachable_fresh. unfold Server.fresh_connection. cbn.
      repeat split; eauto.
    + reflexivity.
  - reflexivity.
Defined.

Lemma SendData_stays_inside_write_buffer_witness :
  size (Server.writeBuffer_
          (Server.mkPipe (Server.PipeInfo_Set 7) 3 [0; 0] [1; 2; 3; 4] false true))
  = 4.
Proof.
  apply (SendData_stays_inside_write_buffer 4 true Server.os_accepts_all
           (Server.sample_world true []) (Server.sample_pipe true)
           (Server.mkPipe (Server.PipeInfo_Set 7) 3 [0; 0] [1; 2; 3; 4] false true)
           [1; 2; 3; 4; 5] 5).
  - reflexivity.
  - reflexivity.
  - lia.
  - cbn. lia.
  - reflexivity.
Defined.

Lemma rejected_read_disconnects_witness :
  Server.self (snd (Server.ListenForData 2 ServerSamples.os_client_gone
                      (Server.sample_world true []))) = None.
Proof.
  destruct (rejected_read_disconnects 2 ServerSamples.os_client_gone
              (Server.sample_world true []) (Server.sample_pipe true) 109
              eq_refl eq_refl eq_refl) as (_ & Hdeleted & _).
  apply Hdeleted. reflexivity.
Defined.

Lemma Connect_returns_waiting_for_a_client_witness :
  exists p',
    Server.self (snd (Server.Connect 2 Server.os_accepts_all "\\.\pipe\testpipe" 7
                        ServerSamples.new_world)) = Some p'
    /\ Server.isConnectionPending_ p' = true
    /\ Server.isConnected_ p' = false.
Proof.
  destruct (Connect_returns_waiting_for_a_client 2 Server.os_accepts_all
              "\\.\pipe\testpipe" 7 ServerSamples.new_world
              (snd (Server.Connect 2 Server.os_accepts_all "\\.\pipe\testpipe" 7
                      ServerSamples.new_world))
              (Server.new_CrPipe [0; 0] [0; 0; 0; 0]) eq_refl eq_refl)
    as (p' & Hs & _ & _ & _ & Hc & _ & _ & _ & [(_ & Hp & _)|(He & _)]).
  - exists p'. auto.
  - discriminate He.
Defined.

Lemma Connect_fails_with_the_call_that_failed_witness :
  exists p' : Server.CrPipe,
    Server.self (snd (Server.Connect 2 ServerSamples.os_cannot_create
                        "\\.\pipe\testpipe" 7 ServerSamples.new_world))
    = Some p'
    /\ Server.pipeHandle_ p' = INVALID_HANDLE_VALUE.
Proof.
  destruct (Connect_fails_with_the_call_that_failed 2
              ServerSamples.os_cannot_create "\\.\pipe\testpipe" 7
              ServerSamples.new_world
              (snd (Server.Connect 2 ServerSamples.os_cannot_create
                      "\\.\pipe\testpipe" 7 ServerSamples.new_world))
              (Server.new_CrPipe [0; 0] [0; 0; 0; 0])
              (ErrorCode "Win API CreateNamedPipe failed." 5)
              eq_refl eq_refl)
    as (p' & e & Hself & _ & _ & _ & [(_ & Hh & _)|[(Hn & _)|(Hn & _)]]).
  - exists p'. split; assumption.
  - discriminate Hn.
  - discriminate Hn.
Defined.

Lemma accepted_client_is_listened_to_witness :
  exists w2,
    Server.step false Server.os_accepts_all
      (Server.default_callbacks 2 Server.os_accepts_all)
      (Server.ClientConnected StatusSuccess)
      (snd (Server.Connect 2 Server.os_accepts_all "\\.\pipe\testpipe" 7
              ServerSamples.new_world))
    = Some (Server.Returned, w2)
    /\ Server.listening 2 w2
    /\ Server.notifications (Server.trace w2) = [Server.PipeConnected]
    /\ Server.peak w2 = 1%nat.
Proof.
  apply (accepted_client_is_listened_to 2 false Server.os_accepts_all)
    with (name := "\\.\pipe\testpipe"%string) (connectedEvent := 7)
         (readBuffer := [0; 0]) (writeBuffer := [0; 0; 0; 0]) (e0 := ERROR_SUCCESS).
  - unfold DWORD_MOD. lia.
  - reflexivity.
  - reflexivity.
  - reflexivity.
Defined.

Lemma OnConnected_without_a_client_witness :
  Server.OnConnected false (Server.default_callbacks 2 Server.os_accepts_all)
    ServerSamples.pending_world
  = (Server.AssertionFailed "res",
     Server.SetLastError ERROR_IO_INCOMPLETE
       (Server.log (Server.CallGetOverlappedResult 3) ServerSamples.pending_world)).
Proof.
  apply (OnConnected_without_a_client 2 Server.os_accepts_all
           ltac:(unfold DWORD_MOD; lia) ltac:(reflexivity)
           (Server.default_callbacks 2 Server.os_accepts_all)
           ServerSamples.pending_world
           (Server.mkPipe (Server.mkInfo StatusPending 7 true) 3 [0; 0]
              [0; 0; 0; 0] true false));
    reflexivity.
Defined.

Lemma request_reply_cycle_witness :
  exists w1 w2 data,
    Server.step false Server.os_accepts_all
      (Server.observer 2 4 false Server.os_accepts_all
         (fun _ => Server.ReplySend [1; 2]))
      (Server.ReadCompletes ERROR_SUCCESS [7] false)
      (Server.sample_world true [Server.ReadOp 2]) = Some (Server.Returned, w1)
    /\ Server.in_flight w1 = [Server.WriteOp [1; 2]]
    /\ Server.step false Server.os_accepts_all
         (Server.observer 2 4 false Server.os_accepts_all
            (fun _ => Server.ReplySend [1; 2]))
         (Server.WriteCompletes ERROR_SUCCESS (size [1; 2])) w1
       = Some (Server.Returned, w2)
    /\ Server.listening 2 w2
    /\ Server.notifications (Server.trace w2)
       = Server.notifications
           (Server.trace (Server.sample_world true [Server.ReadOp 2]))
         ++ [Server.DataReceived data (size [7]); Server.DataSent]
    /\ take_n (size [7]) data = [7].
Proof.
  apply (request_reply_cycle 2 4 false Server.os_accepts_all).
  - unfold DWORD_MOD. lia.
  - unfold DWORD_MOD. lia.
  - reflexivity.
  - reflexivity.
  - exists (Server.sample_pipe true). repeat split.
  - discriminate.
  - cbn. lia.
  - reflexivity.
  - cbn. lia.
Defined.

(** ** The accept and dispatch loop *)

Section LoopFacts.
Import Server ServerLoop.

Variables N M : size_t.
Variable NDEBUG : bool.
Variable os : Os.
Variable respond : list uint8_t -> Reply.
Variable sharedEvent pipeReadyEvent_ : HANDLE.

Let callbacks_ := observer N M NDEBUG os respond.

Lemma fresh_is_quiet (w : World) : fresh_connection w -> quiet w.
Proof. intros (_ & Hi & Hp). split; [exact Hi|lia]. Qed.

Lemma Connect_on_new_pipe_stays_fresh (pipeName : string)
  (readBuffer writeBuffer : list uint8_t) (e : DWORD) :
  fresh_connection
    (snd (Connect N os pipeName sharedEvent
            (mkWorld (Some (new_CrPipe readBuffer writeBuffer)) e [] O []))).
Proof.
  unfold Connect, with_this. cbn [self].
  destruct (CreateNamedPipeA_reply os pipeName _) as [h e1].
  destruct (h =? INVALID_HANDLE_VALUE).
  { unfold fresh_connection. cbn. eauto. }
  destruct (_ =? ERROR_IO_PENDING).
  { unfold fresh_connection. cbn. eauto. }
  destruct (_ =? ERROR_PIPE_CONNECTED).
  - destruct (SetEvent_fails os _); unfold fresh_connection; cbn; eauto.
  - unfold fresh_connection. cbn. eauto.
Qed.

Lemma new_pipe_is_fresh (pipeName : string) (rb wb : list uint8_t)
  (s : ServerState) :
  fresh_connection (nextPipe (snd (new_pipe N os sharedEvent pipeName rb wb s)))
  /\ cast_off (snd (new_pipe N os sharedEvent pipeName rb wb s)) = cast_off s.
Proof.
  unfold new_pipe.
  pose proof (Connect_on_new_pipe_stays_fresh pipeName rb wb (thread_error s)) as H.
  destruct (Connect N os pipeName sharedEvent _) as [o w]. cbn in *. auto.
Qed.

Lemma put_back_single (i : nat) (w : World) (ws : list World) :
  single_flight w -> Forall single_flight ws ->
  Forall single_flight (put_back i w ws).
Proof.
  intros Hw Hall. revert i. induction Hall as [|w0 ws H0 Hrest IH]; intros i.
  - destruct i; constructor.
  - destruct i; cbn [put_back].
    + constructor; assumption.
    + constructor; [assumption|apply IH].
Qed.

Lemma length_put_back (i : nat) (w : World) (ws : list World) :
  length (put_back i w ws) = length ws.
Proof.
  revert i. induction ws as [|w0 ws IH]; intros [|i]; cbn; auto.
Qed.

Lemma run_apc_keeps (a : Apc) (s : ServerState) :
  Forall single_flight (cast_off s) ->
  let s' := snd (run_apc NDEBUG os callbacks_ a s) in
  Forall single_flight (cast_off s') /\ nextPipe s' = nextPipe s
  /\ length (cast_off s') = length (cast_off s).
Proof.
  intros Hall. unfold run_apc.
  destruct a as [i err data more|i err n];
    (destruct (nth_error (cast_off s) i) as [w|] eqn:Hn; [|cbn; auto]);
    (match goal with |- context [step ?a ?b ?c ?ev ?x] =>
       destruct (step a b c ev x) as [[o w']|] eqn:Hstep end; [|cbn; auto]);
    cbn [snd cast_off nextPipe]; (split; [|split; [reflexivity|apply length_put_back]]);
    apply put_back_single; try assumption;
    (eapply step_single; [|exact Hstep]);
    apply nth_error_In in Hn; rewrite Forall_forall in Hall;
    exact (Hall _ Hn).
Qed.

Lemma run_apcs_keeps (l : list Apc) :
  forall s : ServerState,
    Forall single_flight (cast_off s) ->
    let s' := snd (run_apcs NDEBUG os callbacks_ l s) in
    Forall single_flight (cast_off s') /\ nextPipe s' = nextPipe s
    /\ length (cast_off s') = length (cast_off s).
Proof.
  induction l as [|a l IH]; intros s Hall; [cbn; auto|].
  cbn [run_apcs].
  destruct (run_apc_keeps a s Hall) as (H1 & H2 & H3).
  destruct (run_apc NDEBUG os callbacks_ a s) as [o s1]. cbn [snd] in *.
  destruct o; cbn [snd]; auto.
  destruct (IH s1 H1) as (H4 & H5 & H6). repeat split; auto; congruence.
Qed.

Lemma client_connected_keeps (pipeName : string) (r : WaitReply)
  (s : ServerState) :
  fresh_connection (nextPipe s) -> Forall single_flight (cast_off s) ->
  let res := client_connected N NDEBUG os callbacks_ sharedEvent pipeName r s in
  Forall single_flight (cast_off (snd res))
  /\ single_flight (nextPipe (snd res))
  /\ (fst res = Returned ->
      fresh_connection (nextPipe (snd res))
      /\ length (cast_off (snd res)) = S (length (cast_off s))).
Proof.
  intros Hfresh Hall. unfold client_connected.
  destruct Hfresh as ((p & Hs & Hc) & Hi & Hp). rewrite Hs.
  match goal with |- context [OnConnected NDEBUG callbacks_ ?x] =>
    assert (Hsf : single_flight (snd (OnConnected NDEBUG callbacks_ x)));
    [apply OnConnected_single; split; cbn; [exact Hi|lia]|];
    destruct (OnConnected NDEBUG callbacks_ x) as [o w'] end.
  cbn [snd] in Hsf.
  destruct o; cbn [fst snd cast_off nextPipe];
    try (split; [assumption|]; split; [assumption|discriminate]).
  match goal with |- context [new_pipe ?a ?b ?c ?d ?e ?f ?g] =>
    destruct (new_pipe_is_fresh d e f g) as [Hf Hco];
    destruct (new_pipe a b c d e f g) as [o2 s2] end.
  cbn [fst snd cast_off] in *. rewrite Hco.
  split; [apply Forall_app; auto|].
  split; [now apply quiet_single, fresh_is_quiet|].
  intros _. split; [assumption|]. rewrite length_app. cbn. lia.
Qed.

Ltac stopped :=
  split; [assumption|];
  split; [assumption || (now apply quiet_single, fresh_is_quiet)|];
  let Hbad := fresh in intros ? Hbad; discriminate Hbad.

Lemma loop_keeps (pipeName : string) (waits : list WaitReply) :
  forall s : ServerState,
    fresh_connection (nextPipe s) -> Forall single_flight (cast_off s) ->
    let r := loop N NDEBUG os callbacks_ sharedEvent pipeName waits s in
    Forall single_flight (cast_off (final_state r))
    /\ single_flight (nextPipe (final_state r))
    /\ (forall s', r = Waiting s' ->
          fresh_connection (nextPipe s')
          /\ length (cast_off s') = (length (cast_off s) + clients waits)%nat).
Proof.
  induction waits as [|r waits IH]; intros s Hfresh Hall.
  - cbn [loop final_state log_server cast_off nextPipe].
    split; [exact Hall|]. split; [now apply quiet_single, fresh_is_quiet|].
    intros s' Hs'. inversion Hs'. subst. cbn [nextPipe cast_off].
    split; [exact Hfresh|]. unfold clients. cbn. lia.
  - cbn [loop].
    destruct (run_apcs_keeps (ran r)
                (log_server (CallWaitForSingleObjectEx sharedEvent) s) Hall)
      as (H1 & H2 & H3).
    destruct (run_apcs NDEBUG os callbacks_ (ran r) _) as [o s1].
    cbn [snd nextPipe log_server cast_off] in H1, H2, H3.
    assert (Hf1 : fresh_connection (nextPipe s1)) by (rewrite H2; exact Hfresh).
    destruct o; cbn [final_state]; try stopped.
    unfold clients. cbn [filter].
    destruct (result r =? 0).
    + destruct (client_connected_keeps pipeName r s1 Hf1 H1) as (H4 & H5 & H6).
      destruct (client_connected N NDEBUG os callbacks_ sharedEvent pipeName r s1)
        as [o2 s2]. cbn [fst snd] in *.
      destruct o2; cbn [final_state]; try stopped.
      destruct (H6 eq_refl) as [H7 H8].
      destruct (IH s2 H7 H4) as (H9 & H10 & H11).
      split; [assumption|]. split; [assumption|].
      intros s' Hs'. destruct (H11 s' Hs') as [H12 H13].
      split; [assumption|]. unfold clients in H13. cbn [length]. lia.
    + destruct (result r =? WAIT_IO_COMPLETION).
      * destruct (IH s1 Hf1 H1) as (H9 & H10 & H11).
        split; [assumption|]. split; [assumption|].
        intros s' Hs'. destruct (H11 s' Hs') as [H12 H13].
        split; [assumption|]. unfold clients in H13. lia.
      * cbn [final_state nextPipe cast_off]. stopped.
Qed.

(** X16.  The loop of [Run] keeps every connection single-flight.  However the
    waits end and whatever completion routines run during them, each
    connection the server has cast loose, and the pipe it holds, has at
    most one operation in flight and never had more; while [Run] waits, the
    pipe it holds is a fresh one (not connected, nothing in flight), and
    the connections cast loose are as many as the waits that reported a
    client. *)
Theorem Run_keeps_every_connection_single_flight
  (pipeName : string) (readBuffer writeBuffer : list uint8_t) (e0 : DWORD)
  (waits : list WaitReply) :
  let r := Run N NDEBUG os callbacks_ sharedEvent pipeReadyEvent_ pipeName
             readBuffer writeBuffer e0 waits in
  Forall single_flight (cast_off (final_state r))
  /\ single_flight (nextPipe (final_state r))
  /\ (forall s, r = Waiting s ->
        fresh_connection (nextPipe s)
        /\ length (cast_off s) = clients waits).
Proof.
  unfold Run.
  match goal with |- context [new_pipe ?a ?b ?c ?d ?e ?f ?g] =>
    destruct (new_pipe_is_fresh d e f g) as [Hf Hco];
    destruct (new_pipe a b c d e f g) as [o s0] end.
  cbn [snd cast_off] in Hf, Hco.
  destruct o; cbn [final_state]; rewrite ?Hco;
    try (split; [constructor|];
         split; [now apply quiet_single, fresh_is_quiet|];
         let Hbad := fresh in intros ? Hbad; discriminate Hbad).
  match goal with |- context [loop _ _ _ _ _ _ _ ?s] =>
    destruct (loop_keeps pipeName waits s) as (H1 & H2 & H3) end.
  - destruct (pipeReadyEvent_ =? NULL); exact Hf.
  - destruct (pipeReadyEvent_ =? NULL); cbn; rewrite Hco; constructor.
  - split; [assumption|]. split; [assumption|].
    intros s Hs. destruct (H3 s Hs) as [H4 H5]. split; [assumption|].
    rewrite H5. destruct (pipeReadyEvent_ =? NULL); cbn; rewrite Hco; reflexivity.
Qed.

End LoopFacts.

(** ** Client side: reading and closing *)

Section ClientReads.
Import ClientIO.

Variable N : size_t.
Variable NDEBUG : bool.

Lemma closed_app (c1 c2 : list Call) : closed (c1 ++ c2) = closed c1 ++ closed c2.
Proof.
  induction c1 as [|c c1 IH]; [reflexivity|].
  destruct c; cbn; rewrite IH; reflexivity.
Qed.

Lemma reads_app (c1 c2 : list Call) : reads (c1 ++ c2) = reads c1 ++ reads c2.
Proof.
  induction c1 as [|c c1 IH]; [reflexivity|].
  destruct c; cbn; rewrite IH; reflexivity.
Qed.

(** X17.  Destroying a client pipe closes a usable handle exactly once, through
    [Disconnect], and closes nothing otherwise; after an explicit
    [Disconnect] it closes nothing more. *)
Theorem destroy_closes_the_handle_once (st : State) :
  closed (calls (destroy st))
  = closed (calls st) ++ (if IsConnected st then [handle st] else [])
  /\ closed (calls (destroy (Disconnect st)))
     = closed (calls st) ++ [handle st]
  /\ IsConnected (destroy st) = false.
Proof.
  assert (Hd : forall s, handle (Disconnect s) = NULL) by reflexivity.
  assert (Hdc : forall s, calls (Disconnect s)
                          = calls s ++ [CallCloseHandle (handle s)]) by reflexivity.
  assert (Hnull : forall s, handle s = NULL -> Handle_destroy s = s).
  { intros s Hs. unfold Handle_destroy. rewrite Hs. reflexivity. }
  assert (Hinv : forall s, Handle_bool (handle s) = false -> Handle_destroy s = s).
  { intros s Hs. unfold Handle_destroy. unfold Handle_bool in Hs.
    now rewrite Hs. }
  unfold destroy, IsConnected. split; [|split].
  - destruct (Handle_bool (handle st)) eqn:Hv.
    + rewrite Hnull by apply Hd. rewrite Hdc, closed_app. reflexivity.
    + rewrite Hinv by exact Hv. now rewrite app_nil_r.
  - rewrite Hd. change (Handle_bool NULL) with false. cbn iota.
    rewrite Hnull by apply Hd. rewrite Hdc, closed_app. reflexivity.
  - destruct (Handle_bool (handle st)) eqn:Hv.
    + rewrite Hnull by apply Hd. rewrite Hd. reflexivity.
    + rewrite Hinv by exact Hv. exact Hv.
Qed.

Lemma ReadFile_buffer (r : ReadReply) (st : State) :
  take_n (size (bytes r)) (Client.readBuffer_ (this (ReadFile N r st))) = bytes r.
Proof. unfold ReadFile. cbn [this Client.readBuffer_]. apply take_n_app_exact. Qed.

Lemma ReadFile_handle (r : ReadReply) (st : State) :
  handle (ReadFile N r st) = handle st.
Proof. reflexivity. Qed.

Lemma ReadFile_reads (r : ReadReply) (st : State) :
  reads (calls (ReadFile N r st)) = reads (calls st) ++ [to_DWORD N].
Proof. unfold ReadFile, log. cbn [calls]. now rewrite reads_app. Qed.

Lemma ReadFile_error (r : ReadReply) (st : State) :
  succeeded r = false -> last_error (ReadFile N r st) = error r.
Proof. intros H. unfold ReadFile. cbn [last_error]. now rewrite H. Qed.

(** Every truncated read is forwarded to the sink before the next read. *)
Lemma read_until_finished_forwards (partials : list (list uint8_t)) :
  forall (rest : list ReadReply) (st : State) (buffer : list uint8_t),
    exists st',
      read_until_finished N
        (map (fun c => mkReply false c ERROR_MORE_DATA) partials ++ rest)
        st buffer
      = read_until_finished N rest st' (buffer ++ concat partials)
      /\ handle st' = handle st
      /\ reads (calls st')
         = reads (calls st) ++ repeat (to_DWORD N) (length partials).
Proof.
  induction partials as [|c partials IH]; intros rest st buffer.
  - exists st. cbn. rewrite !app_nil_r. auto.
  - cbn [map app read_until_finished succeeded].
    rewrite ReadFile_error by reflexivity. cbn [error negb andb].
    change (ERROR_MORE_DATA =? ERROR_MORE_DATA) with true. cbn [negb andb].
    unfold PipeBuffer_Put. rewrite ReadFile_buffer. cbn [bytes].
    match goal with |- context [read_until_finished N _ ?s ?b] =>
      destruct (IH rest s b) as (st' & Heq & Hh & Hr) end.
    exists st'. rewrite Heq. cbn [concat]. rewrite <- !app_assoc.
    split; [reflexivity|]. split.
    + rewrite Hh. apply ReadFile_handle.
    + rewrite Hr, ReadFile_reads. cbn [repeat length]. rewrite <- app_assoc.
      reflexivity.
Qed.

(** X18.  [WaitForData] on a connected pipe forwards the chunks of all truncated
    reads in order and stops at the first read that is not truncated: it
    returns with that read's bytes added when the read succeeded, and
    throws, keeping what earlier reads brought, when it failed. *)
Theorem WaitForData_forwards_every_chunk
  (partials : list (list uint8_t)) (last : ReadReply)
  (rest : list ReadReply) (st : State) (buffer : list uint8_t) :
  IsConnected st = true ->
  let replies := map (fun c => mkReply false c ERROR_MORE_DATA) partials
                 ++ last :: rest in
  let r := WaitForData N NDEBUG replies st buffer in
  (succeeded last = true ->
     fst (fst r) = Returned
     /\ snd r = buffer ++ concat partials ++ bytes last
     /\ reads (calls (snd (fst r)))
        = reads (calls st) ++ repeat (to_DWORD N) (S (length partials)))
  /\ (succeeded last = false -> error last <> ERROR_MORE_DATA ->
        fst (fst r)
        = Threw (ErrorCode "Failed to read from client-side pipe." (error last))
        /\ snd r = buffer ++ concat partials).
Proof.
  intros Hc replies r. subst r replies. unfold WaitForData.
  rewrite Hc, orb_true_r. cbn [negb].
  destruct (read_until_finished_forwards partials (last :: rest) st buffer)
    as (st' & Heq & Hh & Hr).
  rewrite Heq. cbn [read_until_finished]. split.
  - intros Hs. rewrite Hs. cbn [negb andb fst snd].
    unfold PipeBuffer_Put. rewrite ReadFile_buffer, ReadFile_reads, Hr.
    rewrite <- !app_assoc. repeat split.
    f_equal. change [to_DWORD N] with (repeat (to_DWORD N) 1).
    rewrite <- repeat_app. f_equal. lia.
  - intros Hs He. rewrite Hs, ReadFile_error by exact Hs. cbn [negb andb].
    destruct (Z.eqb_spec (error last) ERROR_MORE_DATA); [contradiction|].
    cbn [negb fst snd]. auto.
Qed.

(** X19.  A whole message reaches the sink: against a pipe in message mode that
    holds [msg], [WaitForData] returns with exactly [msg] added to the
    sink, after [ceil(size / N)] reads of [N] bytes (one read for an empty
    message). *)
Theorem WaitForData_receives_the_message (fuel : nat) :
  forall (msg : list uint8_t) (st : State) (buffer : list uint8_t),
    0 < N < DWORD_MOD -> IsConnected st = true -> (length msg < fuel)%nat ->
    let r := WaitForData N NDEBUG (message_replies N fuel msg) st buffer in
    fst (fst r) = Returned
    /\ snd r = buffer ++ msg
    /\ reads (calls (snd (fst r)))
       = reads (calls st)
         ++ repeat N (Z.to_nat (Z.max 1 (ceil_div (size msg) N))).
Proof.
  intros msg st buffer HN Hc Hfuel r. subst r. unfold WaitForData.
  rewrite Hc, orb_true_r. cbn [negb].
  assert (HNd : to_DWORD N = N) by (unfold to_DWORD; apply Z.mod_small; lia).
  clear Hc. revert msg st buffer Hfuel.
  induction fuel as [|fuel IH]; intros msg st buffer Hfuel; [lia|].
  cbn [message_replies]. pose proof (size_nonneg msg) as Hm.
  destruct (Z.leb_spec (size msg) N) as [Hle|Hgt].
  - cbn [read_until_finished succeeded negb andb fst snd bytes].
    unfold PipeBuffer_Put. 
    rewrite (ReadFile_buffer (mkReply true msg ERROR_SUCCESS)), ReadFile_reads, HNd.
    repeat split. f_equal.
    assert (Hc1 : Z.max 1 (ceil_div (size msg) N) = 1).
    { destruct (Z.eq_dec (size msg) 0) as [H0|H0].
      - rewrite H0. unfold ceil_div. rewrite Z.div_small by lia. reflexivity.
      - rewrite (ceil_div_one N) by lia. reflexivity. }
    rewrite Hc1. reflexivity.
  - cbn [read_until_finished succeeded].
    rewrite ReadFile_error by reflexivity. cbn [error negb andb].
    change (ERROR_MORE_DATA =? ERROR_MORE_DATA) with true. cbn [negb andb].
    unfold PipeBuffer_Put.
    rewrite (ReadFile_buffer (mkReply false (take_n N msg) ERROR_MORE_DATA)).
    cbn [bytes].
    assert (Hrest : size (drop_n N msg) = size msg - N) by (apply size_drop_n; lia).
    match goal with |- context [read_until_finished N _ ?s ?b] =>
      destruct (IH (drop_n N msg) s b) as (H1 & H2 & H3) end.
    { unfold size, drop_n in *. rewrite length_skipn. lia. }
    split; [exact H1|]. split.
    + rewrite H2, <- app_assoc. f_equal. apply take_drop_n.
    + rewrite H3, ReadFile_reads, HNd, <- app_assoc. f_equal.
      change [N] with (repeat N 1). rewrite <- repeat_app. f_equal.
      rewrite Hrest, (ceil_div_step N HN (size msg)).
      assert (0 < ceil_div (size msg - N) N).
      { unfold ceil_div. apply Z.div_str_pos. lia. }
      lia.
Qed.

End ClientReads.

Lemma WaitForData_forwards_every_chunk_witness :
  snd (ClientIO.WaitForData 2 false
         (map (fun c => ClientIO.mkReply false c ERROR_MORE_DATA) [[1; 2]]
          ++ ClientIO.mkReply true [3] ERROR_SUCCESS :: [])
         (ClientIO.sample_client 3) [9])
  = [9] ++ concat [[1; 2]] ++ [3].
Proof.
  destruct (WaitForData_forwards_every_chunk 2 false [[1; 2]]
              (ClientIO.mkReply true [3] ERROR_SUCCESS) []
              (ClientIO.sample_client 3) [9] eq_refl) as [Hok _].
  destruct (Hok eq_refl) as (_ & Hsink & _). exact Hsink.
Defined.

Lemma WaitForData_receives_the_message_witness :
  snd (ClientIO.WaitForData 2 false
         (ClientIO.message_replies 2 6 [1; 2; 3; 4; 5])
         (ClientIO.sample_client 3) [])
  = [] ++ [1; 2; 3; 4; 5].
Proof.
  apply (WaitForData_receives_the_message 2 false 6 [1; 2; 3; 4; 5]
           (ClientIO.sample_client 3) []).
  - unfold DWORD_MOD. lia.
  - reflexivity.
  - cbn. lia.
Defined.

(** Two clients and a finished read, on the sample system: [Run] is found
    waiting with two connections cast loose; the first was told of its
    client and of the data. *)
Example two_clients_scenario :
  match ServerLoop.Run 2 false Server.os_accepts_all
          (Server.default_callbacks 2 Server.os_accepts_all) 7 NULL
          "\\.\pipe\testpipe" [0; 0] [0; 0; 0; 0] ERROR_SUCCESS
          [ServerLoop.client_arrives; ServerLoop.read_finishes [5];
           ServerLoop.client_arrives] with
  | ServerLoop.Waiting s =>
      map (fun w => map Server.delivered
                      (Server.notifications (Server.trace w)))
          (ServerLoop.cast_off s)
  | ServerLoop.Stopped _ _ => []
  end
  = [[[]; [5]]; [[]]].
Proof. vm_compute. reflexivity. Qed.

(** ** The text of an error *)

Section ErrorMessages.
Import ErrorMessage.

Lemma append_cancel_l (t a b : string) :
  (t ++ a)%string = (t ++ b)%string -> a = b.
Proof.
  induction t as [|c t IH]; cbn; intros H; [exact H|].
  inversion H. auto.
Qed.

Lemma append_cancel_last (c : ascii) (a b : string) :
  (a ++ String c EmptyString)%string = (b ++ String c EmptyString)%string ->
  a = b.
Proof.
  revert b. induction a as [|x a IH]; intros [|y b]; cbn; intros H.
  - reflexivity.
  - inversion H as [[Hc Hb]]. destruct b; discriminate.
  - inversion H as [[Hc Ha]]. destruct a; discriminate.
  - inversion H as [[Hc Ha]]. f_equal. now apply IH.
Qed.

Lemma to_string_injective (m n : Z) : to_string m = to_string n -> m = n.
Proof.
  unfold to_string. intros H.
  apply (f_equal NilEmpty.int_of_string) in H. rewrite !NilEmpty.isi in H.
  inversion H as [Hd]. apply (f_equal Z.of_int) in Hd.
  now rewrite !DecimalZ.of_to in Hd.
Qed.

Lemma to_int_injective (d e : Z) :
  0 <= d < 2 ^ 32 -> 0 <= e < 2 ^ 32 -> to_int d = to_int e -> d = e.
Proof.
  unfold to_int. intros Hd He. rewrite !Z.mod_small by assumption.
  destruct (Z.leb_spec (2 ^ 31) d), (Z.leb_spec (2 ^ 31) e); lia.
Qed.

(** X20.  The text of an error tells its code: two errors raised with the same
    text and different system error codes have different messages. *)
Theorem error_message_tells_the_code (text : string) (d e : Z) :
  0 <= d < 2 ^ 32 -> 0 <= e < 2 ^ 32 ->
  what (ErrorCode text d) = what (ErrorCode text e) -> d = e.
Proof.
  intros Hd He H. cbn [what] in H. unfold FormatText in H.
  apply append_cancel_last in H. apply append_cancel_l in H.
  apply to_string_injective in H. now apply to_int_injective.
Qed.

Lemma error_message_tells_the_code_witness :
  to_int 4294967295 = -1 /\ 6 = 6.
Proof.
  split; [reflexivity|].
  apply (error_message_tells_the_code "Win API SetEvent failed." 6 6);
    [lia|lia|reflexivity].
Defined.

End ErrorMessages.

(** ** The echo observer *)

Section EchoFacts.
Import Echo.

Lemma accumulator_set (h k : HANDLE) (v : list uint8_t) (e : EchoPipe) :
  accumulator (set_accumulator h v e) k
  = if k =? h then v else accumulator e k.
Proof. unfold accumulator, set_accumulator. cbn. now destruct (k =? h). Qed.

Lemma collect_accumulates (h : HANDLE) (ps : list (list uint8_t * size_t)) :
  forall e : EchoPipe,
    accumulator (collect h ps e) h = accumulator e h ++ concat (map shown ps)
    /\ forall k, k <> h ->
         partialDataAccumulators_ (collect h ps e) k
         = partialDataAccumulators_ e k.
Proof.
  induction ps as [|c ps IH]; intros e.
  - cbn. rewrite app_nil_r. auto.
  - cbn [collect fold_left map concat].
    destruct (IH (OnPartialDataReceived e h (fst c) (snd c))) as [Ha Hk].
    fold (collect h ps (OnPartialDataReceived e h (fst c) (snd c))).
    split.
    + rewrite Ha. unfold OnPartialDataReceived.
      rewrite accumulator_set, Z.eqb_refl, <- app_assoc. reflexivity.
    + intros k Hne. rewrite Hk by exact Hne. cbn.
      destruct (Z.eqb_spec k h); [contradiction|reflexivity].
Qed.

(** X21.  The echo observer puts a message together again: told of the partial
    chunks and then of the final chunk of a message, starting without
    partial data for the pipe, it answers with the prefix followed by the
    whole message (or by a placeholder if the message is empty), cut to the
    write capacity, so that the size it passes to [SendData] never exceeds
    that capacity; it is left without partial data for the pipe, and the
    data kept for other pipes is untouched. *)
Theorem echo_reply_holds_the_whole_message
  (WriteBufSize : size_t) (e : EchoPipe) (h : HANDLE)
  (ps : list (list uint8_t * size_t)) (data : list uint8_t) (dataSize : size_t) :
  accumulator e h = [] -> 0 <= WriteBufSize -> 0 <= dataSize <= size data ->
  let msg := concat (map shown ps) ++ take_n dataSize data in
  let r := OnDataReceived WriteBufSize (collect h ps e) h data dataSize in
  snd r = take_n WriteBufSize
            (response_prefix
             ++ match msg with [] => response_none | _ => msg end)
  /\ size (snd r) <= WriteBufSize
  /\ accumulator (fst r) h = []
  /\ forall k, k <> h ->
       partialDataAccumulators_ (fst r) k = partialDataAccumulators_ e k.
Proof.
  intros Hacc HW Hd msg r.
  destruct (collect_accumulates h ps e) as [Ha Hk]. rewrite Hacc in Ha.
  cbn [app] in Ha.
  assert (Hcut : forall resp : list uint8_t,
            (if size resp >? WriteBufSize then take_n WriteBufSize resp else resp)
            = take_n WriteBufSize resp).
  { intros resp. destruct (Z.gtb_spec (size resp) WriteBufSize); [reflexivity|].
    unfold take_n, size in *. symmetry. apply firstn_all2. lia. }
  assert (Hshown : size (take_n dataSize data) = dataSize)
    by (rewrite size_take_n; lia).
  assert (Hresp :
            snd r = take_n WriteBufSize
                      (response_prefix
                       ++ match msg with [] => response_none | _ => msg end)
            /\ accumulator (fst r) h = []
            /\ forall k, k <> h ->
                 partialDataAccumulators_ (fst r) k
                 = partialDataAccumulators_ e k).
  { subst r msg. unfold OnDataReceived. rewrite Hcut.
    unfold accumulator in Ha.
    destruct (partialDataAccumulators_ (collect h ps e) h) as [[|b acc]|] eqn:Hp.
    - rewrite <- Ha. cbn [app fst snd]. unfold accumulator. rewrite Hp.
      split; [|split; [reflexivity|exact Hk]].
      destruct (Z.gtb_spec dataSize 0) as [Hpos|Hz].
      + destruct (take_n dataSize data) eqn:Ht; [|reflexivity].
        cbn in Hshown. lia.
      + replace dataSize with 0 by lia. reflexivity.
    - assert (Hacc2 : accumulator (collect h ps e) h = b :: acc)
        by (unfold accumulator; now rewrite Hp).
      rewrite !accumulator_set, !Z.eqb_refl, !Hacc2, <- Ha. cbn [fst snd].
      split; [|split].
      + rewrite take_n_all.
        destruct (Z.gtb_spec (size ((b :: acc) ++ take_n dataSize data)) 0)
          as [_|Hz]; [reflexivity|].
        rewrite size_app in Hz. unfold size in Hz. cbn [length] in Hz. lia.
      + rewrite accumulator_set, Z.eqb_refl. reflexivity.
      + intros k Hne. cbn.
        destruct (Z.eqb_spec k h); [contradiction|]. now apply Hk.
    - rewrite <- Ha. cbn [app fst snd]. unfold accumulator. rewrite Hp.
      split; [|split; [reflexivity|exact Hk]].
      destruct (Z.gtb_spec dataSize 0) as [Hpos|Hz].
      + destruct (take_n dataSize data) eqn:Ht; [|reflexivity].
        cbn in Hshown. lia.
      + replace dataSize with 0 by lia. reflexivity. }
  destruct Hresp as (Hr & Hclear & Hother).
  split; [exact Hr|]. split; [|split; assumption].
  rewrite Hr, size_take_n by lia. lia.
Qed.

Lemma echo_reply_holds_the_whole_message_witness :
  snd (OnDataReceived 30 (collect 3 [([104; 101], 2); ([108; 108], 2)] empty)
         3 [111; 108] 1)
  = take_n 30
      (response_prefix
       ++ match concat (map shown [([104; 101], 2); ([108; 108], 2)])
                ++ take_n 1 [111; 108] with
          | [] => response_none
          | b :: m => b :: m
          end).
Proof.
  apply (echo_reply_holds_the_whole_message 30 empty 3
           [([104; 101], 2); ([108; 108], 2)] [111; 108] 1).
  - reflexivity.
  - lia.
  - cbn. lia.
Defined.

End EchoFacts.
